(** * unwpreg: extraction of wpreg firmware archives

    A shallow embedding of [unwpreg.c] and the properties of its record
    framing, field decoding and file materialization.

    Conventions of the model.
    - A byte is an [ascii]; memory reachable from a pointer is the list of
      bytes from that pointer to the end of the mapping it points into.
      A read that would run past the end of that list has no defined
      behaviour in C and is reported as [Undefined].
    - A C string that has been read from memory is the list of its bytes
      before the terminating NUL; [str] turns a literal into one.
    - [unsigned long] and [size_t] are 64 bits wide, [mode_t] is an unsigned
      32 bit integer and [time_t] a signed 64 bit integer (LP64).
    - [assert] is compiled in: a failing assertion aborts the process.
    - The C library and the operating system are modelled by the functions
      of the sections "C library" and "Filesystem" below. *)

From Stdlib Require Import ZArith Ascii String List Lia.
From stdpp Require Import base option list gmap strings.

Local Open Scope Z_scope.

(** ** Bytes and C strings *)

Definition NUL : ascii := "000"%char.
Definition slash : ascii := "/"%char.

(** The C string that starts at the first byte of [m]; [None] when no NUL
    is found before the end of the mapping. *)
Fixpoint cstr (m : list ascii) : option (list ascii) :=
  match m with
  | [] => None
  | c :: m' => if decide (c = NUL) then Some []
               else (c ::.) <$> cstr m'
  end.

Definition str (s : string) : list ascii := list_ascii_of_string s.

(** [path[0]] of a C string; NUL for the empty string. *)
Definition str_head (s : list ascii) : ascii :=
  match s with
  | [] => NUL
  | c :: _ => c
  end.

(** ** C library: strtoul with base 0 and a null end pointer *)

Definition ULONG_MAX : Z := 2 ^ 64 - 1.

Definition isspace (c : ascii) : bool := Ascii.is_space c.

(** Value of a character as a digit: 0-9, then letters of either case
    from 10 on. *)
Definition digit_val (c : ascii) : option Z :=
  let n := Z.of_N (N_of_ascii c) in
  if (48 <=? n) && (n <=? 57) then Some (n - 48)
  else if (97 <=? n) && (n <=? 122) then Some (n - 87)
  else if (65 <=? n) && (n <=? 90) then Some (n - 55)
  else None.

(** Accumulates digits of [base] until the first byte that is not one.
    That byte has to be read: running out of memory first is an over-read. *)
Fixpoint strtoul_digits (base acc : Z) (m : list ascii) : option Z :=
  match m with
  | [] => None
  | c :: m' =>
      match digit_val c with
      | Some d => if d <? base then strtoul_digits base (acc * base + d) m'
                  else Some acc
      | None => Some acc
      end
  end.

(** Base detection for base 0: "0x"/"0X" selects 16, another leading "0"
    selects 8, anything else 10. *)
Definition strtoul_base0 (m : list ascii) : option Z :=
  match m with
  | [] => None
  | "0"%char :: [] => None
  | "0"%char :: c :: m' =>
      if decide (c = "x"%char ∨ c = "X"%char) then strtoul_digits 16 0 m'
      else strtoul_digits 8 0 m
  | _ => strtoul_digits 10 0 m
  end.

Fixpoint skip_space (m : list ascii) : list ascii :=
  match m with
  | [] => []
  | c :: m' => if isspace c then skip_space m' else m
  end.

(** [strtoul(nptr, NULL, 0)]: leading white space, an optional sign, the
    digits; a value that does not fit is replaced by [ULONG_MAX], a
    negated one wraps around. [None]: the scan left the mapping. *)
Definition strtoul (nptr : list ascii) : option Z :=
  match skip_space nptr with
  | [] => None
  | c :: m' =>
      let '(neg, m1) :=
        if decide (c = "-"%char) then (true, m')
        else if decide (c = "+"%char) then (false, m')
        else (false, c :: m') in
      v ← strtoul_base0 m1;
      Some (if ULONG_MAX <? v then ULONG_MAX
            else if (neg : bool) then (- v) mod 2 ^ 64 else v)
  end.

(** ** struct fwpart *)

Inductive field :=
  f_name | f_size | f_hash | f_mode | f_time | f_rsvd | f_path | f_vers.

Definition fields : list field :=
  [f_name; f_size; f_hash; f_mode; f_time; f_rsvd; f_path; f_vers].

Definition width (f : field) : nat :=
  match f with
  | f_name => 0x74
  | f_size => 0x0C
  | f_hash => 0x10
  | f_mode => 0x0C
  | f_time => 0x0C
  | f_rsvd => 0x0C
  | f_path => 0x3C
  | f_vers => 0x10
  end%nat.

Global Instance field_eq_dec : EqDecision field.
Proof. solve_decision. Defined.

(** Offset of a member: the widths of the members declared before it
    (all members are character arrays, so there is no padding). *)
Fixpoint offset_in (fs : list field) (f : field) : nat :=
  match fs with
  | [] => 0
  | g :: fs' => if decide (g = f) then 0 else (width g + offset_in fs' f)
  end%nat.

Definition offsetof (f : field) : nat := offset_in fields f.

(** [sizeof(struct fwpart)]; the flexible array member [payload] starts
    here. *)
Definition sizeof_fwpart : nat := foldr (λ f n, (width f + n)%nat) 0%nat fields.

(** The memory a pointer to member [f] can reach. *)
Definition member (f : field) (buf : list ascii) : list ascii :=
  drop (offsetof f) buf.

Definition payload (buf : list ascii) : list ascii := drop sizeof_fwpart buf.

(** ** Filesystem

    The operating system as the program sees it: a tree of directories and
    regular files addressed by absolute locations (the names from the
    root), the working directory of the process, its file-creation mask,
    the clock, and the free inodes and free data bytes of the device.
    Permission checks, symbolic links and other processes are not
    modelled, nor are the limits of a file system on the length of a path
    and on the time stamps it can store. The time stamps of a directory
    are those of its creation: that making an entry in it marks them for
    an update is left out. A call fails for the causes written out here
    and for no other, so a system can refuse a call that succeeds here. *)

Inductive errno := ENOENT | ENOTDIR | EEXIST | EISDIR | ENOSPC | ENAMETOOLONG.

Inductive ftype := S_IFDIR | S_IFREG.

Record inode := Inode {
  st_type : ftype;
  st_data : list ascii;
  st_perm : Z;
  st_atime : Z;
  st_mtime : Z }.

Definition S_ISDIR (st : inode) : bool :=
  match st_type st with S_IFDIR => true | S_IFREG => false end.

(** One line written by [printf] (the formatting of numbers is left out). *)
Inductive line :=
  | LName (s : list ascii) | LSize (z : Z) | LPath (s : list ascii)
  | LMode (z : Z) | LTime (z : Z) | LRsvd (z : Z) | LVers (s : list ascii)
  | LBlank.

Record filesys := Filesys {
  fs_nodes : gmap (list (list ascii)) inode;
  fs_cwd : list (list ascii);
  fs_umask : Z;
  fs_clock : Z;
  fs_free_inodes : Z;
  fs_free_bytes : Z;
  fs_stdout : list line }.

Definition set_nodes (n : gmap (list (list ascii)) inode) (fs : filesys) : filesys :=
  Filesys n (fs_cwd fs) (fs_umask fs) (fs_clock fs) (fs_free_inodes fs)
    (fs_free_bytes fs) (fs_stdout fs).

Definition set_cwd (d : list (list ascii)) (fs : filesys) : filesys :=
  Filesys (fs_nodes fs) d (fs_umask fs) (fs_clock fs) (fs_free_inodes fs)
    (fs_free_bytes fs) (fs_stdout fs).

Definition set_free_inodes (k : Z) (fs : filesys) : filesys :=
  Filesys (fs_nodes fs) (fs_cwd fs) (fs_umask fs) (fs_clock fs) k
    (fs_free_bytes fs) (fs_stdout fs).

Definition set_free_bytes (k : Z) (fs : filesys) : filesys :=
  Filesys (fs_nodes fs) (fs_cwd fs) (fs_umask fs) (fs_clock fs)
    (fs_free_inodes fs) k (fs_stdout fs).

Definition set_stdout (o : list line) (fs : filesys) : filesys :=
  Filesys (fs_nodes fs) (fs_cwd fs) (fs_umask fs) (fs_clock fs)
    (fs_free_inodes fs) (fs_free_bytes fs) o.

Definition NAME_MAX : nat := 255.

(** Octal 0777, 0666 and 07777. *)
Definition ACCESSPERMS : Z := 511.
Definition DEFFILEMODE : Z := 438.
Definition ALLPERMS : Z := 4095.

Definition is_slash (c : ascii) : bool := bool_decide (c = slash).

(** The names of a path: the pieces between slashes, empty pieces dropped. *)
Fixpoint components (p : list ascii) : list (list ascii) :=
  match p with
  | [] => []
  | c :: p' =>
      if is_slash c then components p'
      else match components p' with
           | x :: xs => if is_slash (str_head p') then [c] :: x :: xs
                        else (c :: x) :: xs
           | [] => [[c]]
           end
  end.

Definition trailing_slash (p : list ascii) : bool :=
  match last p with
  | Some c => is_slash c
  | None => false
  end.

(** One step of name resolution from directory [dir]. *)
Definition step (dir : list (list ascii)) (c : list ascii) : list (list ascii) :=
  if decide (c = str ".") then dir
  else if decide (c = str "..") then removelast dir
  else dir ++ [c].

(** Resolves the names [cs] from [dir]: every name is looked up in an
    existing directory; the entry the last name denotes need not exist. *)
Fixpoint walk (nodes : gmap (list (list ascii)) inode) (dir : list (list ascii))
    (cs : list (list ascii)) : errno + list (list ascii) :=
  match cs with
  | [] => inr dir
  | c :: cs' =>
      match nodes !! dir with
      | None => inl ENOENT
      | Some st =>
          if negb (S_ISDIR st) then inl ENOTDIR
          else if (NAME_MAX <? length c)%nat then inl ENAMETOOLONG
          else walk nodes (step dir c) cs'
      end
  end.

Definition resolve (fs : filesys) (p : list ascii) : errno + list (list ascii) :=
  if decide (p = []) then inl ENOENT
  else walk (fs_nodes fs) (if is_slash (str_head p) then [] else fs_cwd fs)
         (components p).

Definition is_dir (nodes : gmap (list (list ascii)) inode) (loc : list (list ascii)) : bool :=
  match nodes !! loc with
  | Some st => S_ISDIR st
  | None => false
  end.

Definition sys_stat (fs : filesys) (p : list ascii) : errno + inode :=
  match resolve fs p with
  | inl e => inl e
  | inr loc =>
      match fs_nodes fs !! loc with
      | None => inl ENOENT
      | Some st =>
          if trailing_slash p && negb (S_ISDIR st) then inl ENOTDIR else inr st
      end
  end.

(** [mkdir]: the new directory gets the permission bits [mode & ~umask]. *)
Definition sys_mkdir (fs : filesys) (p : list ascii) (mode : Z) : errno + filesys :=
  match resolve fs p with
  | inl e => inl e
  | inr loc =>
      match fs_nodes fs !! loc with
      | Some _ => inl EEXIST
      | None =>
          if negb (is_dir (fs_nodes fs) (removelast loc)) then inl ENOENT
          else if fs_free_inodes fs <=? 0 then inl ENOSPC
          else
            let st := Inode S_IFDIR [] (Z.ldiff (Z.land mode ACCESSPERMS) (fs_umask fs))
                        (fs_clock fs) (fs_clock fs) in
            inr (set_free_inodes (fs_free_inodes fs - 1)
                   (set_nodes (<[loc := st]> (fs_nodes fs)) fs))
      end
  end.

Definition sys_chdir (fs : filesys) (p : list ascii) : errno + filesys :=
  match resolve fs p with
  | inl e => inl e
  | inr loc =>
      match fs_nodes fs !! loc with
      | None => inl ENOENT
      | Some st => if S_ISDIR st then inr (set_cwd loc fs) else inl ENOTDIR
      end
  end.

(** [open(p, O_RDONLY)]: the descriptor is represented by the location it
    refers to. *)
Definition sys_open_rdonly (fs : filesys) (p : list ascii) : errno + list (list ascii) :=
  match resolve fs p with
  | inl e => inl e
  | inr loc =>
      match fs_nodes fs !! loc with
      | None => inl ENOENT
      | Some st =>
          if trailing_slash p && negb (S_ISDIR st) then inl ENOTDIR else inr loc
      end
  end.

Definition sys_fchdir (fs : filesys) (fd : list (list ascii)) : errno + filesys :=
  match fs_nodes fs !! fd with
  | None => inl ENOENT
  | Some st => if S_ISDIR st then inr (set_cwd fd fs) else inl ENOTDIR
  end.

(** [fopen(p, "w")]: an existing regular file is truncated (its bytes
    return to the device), a missing one is created with the permission
    bits [0666 & ~umask]. The stream is represented by the location of
    the file. *)
Definition sys_fopen_w (fs : filesys) (p : list ascii) : errno + (list (list ascii) * filesys) :=
  match resolve fs p with
  | inl e => inl e
  | inr loc =>
      if trailing_slash p then inl EISDIR
      else
        match fs_nodes fs !! loc with
        | Some st =>
            if S_ISDIR st then inl EISDIR
            else
              let st' := Inode S_IFREG [] (st_perm st) (st_atime st) (fs_clock fs) in
              inr (loc, set_free_bytes
                          (fs_free_bytes fs + Z.of_nat (length (st_data st)))
                          (set_nodes (<[loc := st']> (fs_nodes fs)) fs))
        | None =>
            if negb (is_dir (fs_nodes fs) (removelast loc)) then inl ENOENT
            else if fs_free_inodes fs <=? 0 then inl ENOSPC
            else
              let st := Inode S_IFREG [] (Z.ldiff DEFFILEMODE (fs_umask fs))
                          (fs_clock fs) (fs_clock fs) in
              inr (loc, set_free_inodes (fs_free_inodes fs - 1)
                          (set_nodes (<[loc := st]> (fs_nodes fs)) fs))
        end
  end.

(** [fwrite(ptr, size, 1, f)] followed by the flush of [fclose]: as many
    of the [size] bytes as the device has room for reach the file. The
    result is the number of complete items written, 0 or 1. The caller
    guarantees that [size] bytes are readable at [ptr]. *)
Definition sys_fwrite (fs : filesys) (ptr : list ascii) (size : Z)
    (f : list (list ascii)) : Z * filesys :=
  let n := Z.min size (Z.max 0 (fs_free_bytes fs)) in
  let put st := Inode (st_type st) (st_data st ++ take (Z.to_nat n) ptr)
                  (st_perm st) (st_atime st) (fs_clock fs) in
  (if (0 <? size) && (n =? size) then 1 else 0,
   set_free_bytes (fs_free_bytes fs - n)
     (set_nodes (alter put f (fs_nodes fs)) fs)).

(** [chmod] and [utime] on a path that resolves: they are taken to be
    allowed, and the permission bits and the times are stored as they are
    given. *)
Definition sys_chmod (fs : filesys) (p : list ascii) (mode : Z) : errno + filesys :=
  match resolve fs p with
  | inl e => inl e
  | inr loc =>
      match fs_nodes fs !! loc with
      | None => inl ENOENT
      | Some st =>
          if trailing_slash p && negb (S_ISDIR st) then inl ENOTDIR
          else
            let st' := Inode (st_type st) (st_data st) (Z.land mode ALLPERMS)
                         (st_atime st) (st_mtime st) in
            inr (set_nodes (<[loc := st']> (fs_nodes fs)) fs)
      end
  end.

Definition sys_utime (fs : filesys) (p : list ascii) (actime modtime : Z) :
    errno + filesys :=
  match resolve fs p with
  | inl e => inl e
  | inr loc =>
      match fs_nodes fs !! loc with
      | None => inl ENOENT
      | Some st =>
          if trailing_slash p && negb (S_ISDIR st) then inl ENOTDIR
          else
            let st' := Inode (st_type st) (st_data st) (st_perm st)
                         actime modtime in
            inr (set_nodes (<[loc := st']> (fs_nodes fs)) fs)
      end
  end.

(** ** C library: dirname

    POSIX [dirname]: trailing slashes do not count, the last name and the
    slashes before it are removed; "." when no directory part is left, "/"
    when only slashes are. *)

Fixpoint drop_slashes (l : list ascii) : list ascii :=
  match l with
  | [] => []
  | c :: l' => if is_slash c then drop_slashes l' else l
  end.

Fixpoint drop_name (l : list ascii) : list ascii :=
  match l with
  | [] => []
  | c :: l' => if is_slash c then l else drop_name l'
  end.

Definition dirname (path : list ascii) : list ascii :=
  match drop_slashes (reverse path) with
  | [] => if decide (path = []) then str "." else str "/"
  | r =>
      match drop_slashes (drop_name r) with
      | [] => if decide (drop_name r = []) then str "." else str "/"
      | d => reverse d
      end
  end.

(** ** The process: outcomes of a run and sequencing *)

(** The assertions of the program, by the line they stand on. *)
Inductive failure :=
  | assert_chdir          (* 60: chdir failed *)
  | assert_path_nonempty  (* 68 *)
  | assert_path_relative  (* 69 *)
  | assert_path_not_dot   (* 70 *)
  | assert_path_not_dotdot (* 71 *)
  | assert_mkdir          (* 75: mkdir failed *)
  | assert_isdir          (* 77: the entry is not a directory *)
  | assert_open           (* 93: open(".") failed *)
  | assert_fopen          (* 127: fopen failed *)
  | assert_header         (* 148: fewer bytes than a header *)
  | assert_payload        (* 164: fewer bytes than header and payload *)
  | assert_exhausted.     (* 179 *)

Global Instance failure_eq_dec : EqDecision failure.
Proof. solve_decision. Defined.

(** How a computation ends: normally with a result, by a failed assertion
    (the process is aborted in the state it had reached), by an operation
    the C standard gives no meaning to, or not within the bound set on a
    loop of the model. *)
Inductive outcome (A : Type) :=
  | Done (a : A) (fs : filesys)
  | Abort (e : failure) (fs : filesys)
  | Undefined
  | Diverge.
Arguments Done {A} a fs.
Arguments Abort {A} e fs.
Arguments Undefined {A}.
Arguments Diverge {A}.

Definition M (A : Type) : Type := filesys → outcome A.

Global Instance M_ret : MRet M := λ A a fs, Done a fs.

Global Instance M_bind : MBind M := λ A B f m fs,
  match m fs with
  | Done a fs' => f a fs'
  | Abort e fs' => Abort e fs'
  | Undefined => Undefined
  | Diverge => Diverge
  end.

Definition assert (b : bool) (e : failure) : M unit :=
  λ fs, if b then Done tt fs else Abort e fs.

Definition undefined {A} : M A := λ _, Undefined.

Definition diverge {A} : M A := λ _, Diverge.

(** A read through a pointer: undefined when it leaves the mapping. *)
Definition rd {A} (o : option A) : M A :=
  match o with
  | Some a => mret a
  | None => undefined
  end.

(** A system call that leaves the state alone when it fails. *)
Definition call (f : filesys → errno + filesys) : M (errno + unit) :=
  λ fs, match f fs with
        | inl e => Done (inl e) fs
        | inr fs' => Done (inr tt) fs'
        end.

Definition stat (path : list ascii) : M (errno + inode) :=
  λ fs, Done (sys_stat fs path) fs.

Definition mkdir (path : list ascii) (mode : Z) : M (errno + unit) :=
  call (λ fs, sys_mkdir fs path mode).

Definition chdir (path : list ascii) : M (errno + unit) :=
  call (λ fs, sys_chdir fs path).

Definition open_rdonly (path : list ascii) : M (errno + list (list ascii)) :=
  λ fs, Done (sys_open_rdonly fs path) fs.

Definition fchdir (fd : list (list ascii)) : M (errno + unit) :=
  call (λ fs, sys_fchdir fs fd).

Definition close (fd : list (list ascii)) : M (errno + unit) := mret (inr tt).

Definition fopen_w (path : list ascii) : M (errno + list (list ascii)) :=
  λ fs, match sys_fopen_w fs path with
        | inl e => Done (inl e) fs
        | inr (f, fs') => Done (inr f) fs'
        end.

(** Reading [size] bytes where fewer are mapped is undefined. *)
Definition fwrite (ptr : list ascii) (size : Z) (f : list (list ascii)) : M Z :=
  λ fs, if size <=? Z.of_nat (length ptr)
        then let '(n, fs') := sys_fwrite fs ptr size f in Done n fs'
        else Undefined.

Definition fclose (f : list (list ascii)) : M (errno + unit) := mret (inr tt).

Definition chmod (path : list ascii) (mode : Z) : M (errno + unit) :=
  call (λ fs, sys_chmod fs path mode).

Definition utime (path : list ascii) (actime modtime : Z) : M (errno + unit) :=
  call (λ fs, sys_utime fs path actime modtime).

Definition printf (l : line) : M unit :=
  λ fs, Done tt (set_stdout (fs_stdout fs ++ [l]) fs).

Definition succeeded {A} (r : errno + A) : bool :=
  match r with inr _ => true | inl _ => false end.

(** ** The program *)

Definition _chdir (path : list ascii) : M unit :=
  ret ← chdir path;
  assert (succeeded ret) assert_chdir.

(** When [stat] fails for another cause than [ENOENT], the [else] branch
    tests the uninitialised [st]. *)
Definition _mkdir (path : list ascii) (mode : Z) : M unit :=
  assert (negb (bool_decide (str_head path = NUL))) assert_path_nonempty;;
  assert (negb (bool_decide (str_head path = slash))) assert_path_relative;;
  assert (negb (bool_decide (path = str "."))) assert_path_not_dot;;
  assert (negb (bool_decide (path = str ".."))) assert_path_not_dotdot;;
  r ← stat path;
  match r with
  | inl ENOENT =>
      ret ← mkdir path mode;
      assert (succeeded ret) assert_mkdir
  | inl _ => undefined
  | inr st => assert (S_ISDIR st) assert_isdir
  end.

(** [s = strchr(path, '/'); while (s && *s == '/') *s++ = 0;]
    The string [path] now ends where its first slash was; [s] is null
    when there was none and otherwise points behind the run of slashes. *)
Fixpoint cut_slash (path : list ascii) : list ascii * option (list ascii) :=
  match path with
  | [] => ([], None)
  | c :: p' =>
      if is_slash c then ([], Some (drop_slashes p'))
      else let '(h, s) := cut_slash p' in (c :: h, s)
  end.

(** The recursion of [_mkdir_p], bounded by [fuel] calls. *)
Fixpoint _mkdir_p_rec (fuel : nat) (path : list ascii) (mode : Z) : M unit :=
  match fuel with
  | O => diverge
  | S fuel' =>
      let '(path, s) := cut_slash path in
      _mkdir path mode;;
      match s with
      | Some s =>
          fd ← open_rdonly (str ".");
          assert (succeeded fd) assert_open;;
          _chdir path;;
          _mkdir_p_rec fuel' s mode;;
          match fd with
          | inr fd => fchdir fd;; close fd;; mret tt
          | inl _ => mret tt
          end
      | None => mret tt
      end
  end.

(** Every call is on a shorter string, so its length bounds the depth. *)
Definition _mkdir_p (path : list ascii) (mode : Z) : M unit :=
  _mkdir_p_rec (S (length path)) path mode.

(** [malloc] of the few bytes of the copy is taken to succeed. *)
Definition mkdir_p_fn (path : list ascii) (mode : Z) : M unit :=
  let s := path in
  _mkdir_p (dirname s) mode.

Definition save_buf (path : list ascii) (buf : list ascii) (size : Z)
    (mode : Z) (time : Z) : M unit :=
  let path := drop_slashes path in
  mkdir_p_fn path ACCESSPERMS;;
  f ← fopen_w path;
  assert (succeeded f) assert_fopen;;
  match f with
  | inr f => fwrite buf size f;; fclose f;; mret tt
  | inl _ => mret tt
  end;;
  chmod path mode;;
  utime path time time;;
  mret tt.

Definition to_size_t (z : Z) : Z := z mod 2 ^ 64.
Definition to_mode_t (z : Z) : Z := z mod 2 ^ 32.
Definition to_time_t (z : Z) : Z := if z <? 2 ^ 63 then z else z - 2 ^ 64.

Definition process_buf (buf : list ascii) (count : Z) : M Z :=
  let pt := buf in
  assert (Z.of_nat sizeof_fwpart <=? count) assert_header;;
  size ← rd (strtoul (member f_size pt));
  mode ← rd (to_mode_t <$> strtoul (member f_mode pt));
  time ← rd (to_time_t <$> strtoul (member f_time pt));
  rsvd ← rd (strtoul (member f_rsvd pt));
  name ← rd (cstr (member f_name pt));
  printf (LName name);;
  printf (LSize size);;
  path ← rd (cstr (member f_path pt));
  printf (LPath path);;
  printf (LMode mode);;
  printf (LTime time);;
  printf (LRsvd rsvd);;
  vers ← rd (cstr (member f_vers pt));
  printf (LVers vers);;
  printf LBlank;;
  assert (to_size_t (Z.of_nat sizeof_fwpart + size) <=? count) assert_payload;;
  save_buf path (payload pt) size mode time;;
  mret (to_size_t (Z.of_nat sizeof_fwpart + size)).

(** The loop of [process_mem], bounded by [fuel] iterations. *)
Fixpoint process_mem_loop (fuel : nat) (mem : list ascii) (size : Z) : M unit :=
  match fuel with
  | O => diverge
  | S fuel' =>
      if 0 <? size then
        length ← process_buf mem size;
        process_mem_loop fuel' (drop (Z.to_nat length) mem)
          (to_size_t (size - length))
      else assert (size =? 0) assert_exhausted
  end.

(** Every record takes at least one byte, so the number of bytes bounds
    the number of iterations. *)
Definition process_mem (mem : list ascii) (size : Z) : M unit :=
  process_mem_loop (S (Z.to_nat size)) mem size.

(** ** Vocabulary of the properties *)

(** The values [process_buf] reads out of a header, in the types of its
    local variables. *)
Record fwpart := Fwpart {
  pt_name : list ascii;
  pt_size : Z;
  pt_path : list ascii;
  pt_mode : Z;
  pt_time : Z;
  pt_rsvd : Z;
  pt_vers : list ascii }.

(** The reads of [process_buf] on their own; [None] when one of them
    leaves the mapping. *)
Definition decode (pt : list ascii) : option fwpart :=
  size ← strtoul (member f_size pt);
  mode ← to_mode_t <$> strtoul (member f_mode pt);
  time ← to_time_t <$> strtoul (member f_time pt);
  rsvd ← strtoul (member f_rsvd pt);
  name ← cstr (member f_name pt);
  path ← cstr (member f_path pt);
  vers ← cstr (member f_vers pt);
  Some (Fwpart name size path mode time rsvd vers).

(** The eight lines [process_buf] prints for a record. *)
Definition record_log (r : fwpart) : list line :=
  [LName (pt_name r); LSize (pt_size r); LPath (pt_path r); LMode (pt_mode r);
   LTime (pt_time r); LRsvd (pt_rsvd r); LVers (pt_vers r); LBlank].

(** Header width plus payload size, as an integer without wrap-around. *)
Definition total_length (r : fwpart) : Z := Z.of_nat sizeof_fwpart + pt_size r.

(** [framing buf rs]: the buffer is the records [rs] packed back to back,
    each a complete header followed by as many payload bytes as its size
    field declares, with nothing left over. *)
Inductive framing : list ascii → list fwpart → Prop :=
  | framing_nil : framing [] []
  | framing_cons buf r rs :
      (sizeof_fwpart ≤ length buf)%nat →
      decode buf = Some r →
      total_length r ≤ Z.of_nat (length buf) →
      framing (drop (Z.to_nat (total_length r)) buf) rs →
      framing buf (r :: rs).

(** A name a directory entry can have. *)
Definition proper_name (c : list ascii) : Prop :=
  c ≠ [] ∧ (slash ∉ c) ∧ c ≠ str "." ∧ c ≠ str ".." ∧ (length c ≤ NAME_MAX)%nat.

(** The parts of the state that directory creation leaves alone. *)
Definition same_env (fs fs' : filesys) : Prop :=
  fs_umask fs' = fs_umask fs ∧ fs_clock fs' = fs_clock fs ∧
  fs_free_bytes fs' = fs_free_bytes fs ∧ fs_stdout fs' = fs_stdout fs.

(** The names [cs] are proper and lead from [dir] through existing
    directories. *)
Definition dirs_ready (nodes : gmap (list (list ascii)) inode)
    (dir : list (list ascii)) (cs : list (list ascii)) : Prop :=
  Forall proper_name cs ∧
  ∀ k, (k ≤ length cs)%nat → is_dir nodes (dir ++ take k cs) = true.

(** The assertions of [_chdir], [_mkdir] and [_mkdir_p]. *)
Definition mkdir_failure (e : failure) : bool :=
  match e with
  | assert_chdir | assert_path_nonempty | assert_path_relative
  | assert_path_not_dot | assert_path_not_dotdot | assert_mkdir
  | assert_isdir | assert_open => true
  | _ => false
  end.

(** The assertions that can fail inside [save_buf]. *)
Definition materialize_failure (e : failure) : bool :=
  mkdir_failure e || bool_decide (e = assert_fopen).

(** Digits of a base, the value of a digit string, and the saturation
    of [strtoul]. *)
Definition is_digit (base : Z) (c : ascii) : bool :=
  match digit_val c with
  | Some d => d <? base
  | None => false
  end.

Definition digits_value (base : Z) (ds : list ascii) : Z :=
  fold_left (λ acc c, acc * base + default 0 (digit_val c)) ds 0.

Definition saturate (v : Z) : Z := if ULONG_MAX <? v then ULONG_MAX else v.

(** ** Vocabulary of the states that directory creation leaves *)

(** The recursion of [_mkdir_p] over the names of its path, the cutting
    of the string left out: [_mkdir] of the first name and, when more
    names follow, the same for them from inside it, between [open(".")]
    and [fchdir]. *)
Fixpoint mkdir_components (cs : list (list ascii)) (mode : Z) : M unit :=
  match cs with
  | [] => mret tt
  | c :: cs' =>
      _mkdir c mode;;
      match cs' with
      | [] => mret tt
      | _ :: _ =>
          fd ← open_rdonly (str ".");
          assert (succeeded fd) assert_open;;
          _chdir c;;
          mkdir_components cs' mode;;
          match fd with
          | inr fd => fchdir fd;; close fd;; mret tt
          | inl _ => mret tt
          end
      end
  end.

(** The state after [_mkdir] has returned for the entry at [loc]: an
    existing entry is left as it is, a missing one is a new directory with
    the permission bits [mode & 0777 & ~umask], stamped by the clock, and
    takes one inode. *)
Definition make_dir_at (loc : list (list ascii)) (mode : Z) (fs : filesys) : filesys :=
  match fs_nodes fs !! loc with
  | Some _ => fs
  | None =>
      set_free_inodes (fs_free_inodes fs - 1)
        (set_nodes
           (<[loc := Inode S_IFDIR [] (Z.ldiff (Z.land mode ACCESSPERMS) (fs_umask fs))
                       (fs_clock fs) (fs_clock fs)]> (fs_nodes fs)) fs)
  end.

(** The same for the names [cs] one below the other, starting in [dir]. *)
Fixpoint make_dirs (dir : list (list ascii)) (cs : list (list ascii)) (mode : Z)
    (fs : filesys) : filesys :=
  match cs with
  | [] => fs
  | c :: cs' => make_dirs (dir ++ [c]) cs' mode (make_dir_at (dir ++ [c]) mode fs)
  end.

(** How many of the entries that the names [cs] lead through from [dir]
    do not exist. *)
Fixpoint missing (nodes : gmap (list (list ascii)) inode) (dir : list (list ascii))
    (cs : list (list ascii)) : nat :=
  match cs with
  | [] => 0
  | c :: cs' =>
      (match nodes !! (dir ++ [c]) with None => 1 | Some _ => 0 end +
       missing nodes (dir ++ [c]) cs')%nat
  end.

(** ** Example archives and filesystems *)

(** A field of width [w] holding the text [s], padded with NUL. *)
Definition pad (w : nat) (s : string) : list ascii :=
  take w (str s ++ replicate w NUL).

(** The bytes of one record. *)
Definition record_bytes (name size hash mode time rsvd path vers : string)
    (data : list ascii) : list ascii :=
  pad (width f_name) name ++ pad (width f_size) size ++ pad (width f_hash) hash ++
  pad (width f_mode) mode ++ pad (width f_time) time ++ pad (width f_rsvd) rsvd ++
  pad (width f_path) path ++ pad (width f_vers) vers ++ data.

Definition ex_dir : inode := Inode S_IFDIR [] 493 0 0.

(** Root directory and [/root], which is the working directory; umask
    022, ten free inodes and a hundred free bytes. *)
Definition ex_fs : filesys :=
  Filesys {[ [] := ex_dir; [str "root"] := ex_dir ]} [str "root"]
    18 1000 10 100 [].

(** The same with room for two more bytes only. *)
Definition ex_fs_full : filesys := set_free_bytes 2 ex_fs.

(** The same with a regular file [/root/a]. *)
Definition ex_fs_conflict : filesys :=
  set_nodes (<[ [str "root"; str "a"] := Inode S_IFREG (str "keep") 420 7 7 ]>
               (fs_nodes ex_fs)) ex_fs.

Definition ex_prog : list ascii :=
  record_bytes "prog" "0x3" "" "0755" "1234" "0" "/home/bin/prog" "1.0"
    (str "abc").

Definition ex_conf : list ascii :=
  record_bytes "conf" "2" "" "0644" "99" "0" "home/etc/conf" "1.0" (str "xy").

Definition ex_archive : list ascii := ex_prog ++ ex_conf.

Definition ex_prog_pt : fwpart :=
  Fwpart (str "prog") 3 (str "/home/bin/prog") 493 1234 0 (str "1.0").

Definition ex_conf_pt : fwpart :=
  Fwpart (str "conf") 2 (str "home/etc/conf") 420 99 0 (str "1.0").

(** A record whose path is a bare file name. *)
Definition ex_bare : list ascii :=
  record_bytes "readme" "2" "" "0644" "99" "0" "readme" "1.0" (str "hi").

Definition ex_bare_pt : fwpart :=
  Fwpart (str "readme") 2 (str "readme") 420 99 0 (str "1.0").

(** A header alone whose size field reads "-1". *)
Definition ex_wrap : list ascii :=
  record_bytes "w" "-1" "" "0644" "99" "0" "a/b" "1.0" [].

(** A record whose path field has no NUL in its 0x3C bytes. *)
Definition ex_long_path : string :=
  "a/bbbbbbbbbbbbbbbbbbbbbbbbbbbbbbbbbbbbbbbbbbbbbbbbbbbbbbbbbb".

Definition ex_unterminated : list ascii :=
  record_bytes "u" "1" "" "0644" "99" "0" ex_long_path "1.0" (str "z").

Definition ex_passwd : list ascii :=
  record_bytes "passwd" "4" "" "0644" "99" "0" "/etc/passwd" "1.0" (str "root").

Definition ex_nested : list ascii :=
  record_bytes "file" "1" "" "0644" "99" "0" "a/b/file.bin" "1.0" (str "z").

(** A proper name that [_mkdir] accepts as a C string. *)
Definition dir_name (c : list ascii) : Prop := proper_name c ∧ str_head c ≠ NUL.

Definition ex_wrap_pt : fwpart :=
  Fwpart (str "w") (2 ^ 64 - 1) (str "a/b") 420 99 0 (str "1.0").

Definition ex_unterminated_pt : fwpart :=
  Fwpart (str "u") 1 (str ex_long_path ++ str "1.0") 420 99 0 (str "1.0").

(** A record whose size field reads "0x2A", with its 42 payload bytes. *)
Definition ex_hex : list ascii :=
  record_bytes "h" "0x2A" "" "0755" "0" "0" "d/h" "1.0" (replicate 42 "p"%char).

(** A test on the result and final state of a run that returned. *)
Definition holds_on_done {A} (o : outcome A) (f : A → filesys → bool) : bool :=
  match o with
  | Done a fs => f a fs
  | _ => false
  end.

Global Instance ftype_eq_dec : EqDecision ftype.
Proof. solve_decision. Defined.

Global Instance inode_eq_dec : EqDecision inode.
Proof. solve_decision. Defined.

(** ** Tactics for closed goals *)

Ltac by_decide :=
  match goal with
  | |- ?P => apply (@bool_decide_unpack P _); vm_compute; exact I
  end.

Ltac framing_step :=
  match goal with
  | |- framing ?b [] =>
      replace b with (@nil ascii) by (vm_compute; reflexivity); apply framing_nil
  | |- framing _ (_ :: _) =>
      apply framing_cons;
      [vm_compute; lia | vm_compute; reflexivity | vm_compute; discriminate |]
  end.

(** * Properties *)

Lemma is_slash_true c : is_slash c = true ↔ c = slash.
Proof. unfold is_slash. by rewrite bool_decide_eq_true. Qed.

Lemma is_slash_false c : is_slash c = false ↔ c ≠ slash.
Proof. unfold is_slash. by rewrite bool_decide_eq_false. Qed.

Lemma drop_slashes_spec l :
  ∃ k, l = replicate k slash ++ drop_slashes l ∧
       is_slash (str_head (drop_slashes l)) = false.
Proof.
  induction l as [|c l [k [Hl Hh]]]; simpl.
  - by exists 0%nat.
  - destruct (is_slash c) eqn:Hc.
    + apply is_slash_true in Hc as ->. exists (S k). simpl. by rewrite <- Hl.
    + by exists 0%nat.
Qed.

Lemma drop_slashes_length l : (length (drop_slashes l) ≤ length l)%nat.
Proof. induction l as [|c l IH]; simpl; [lia|]. destruct (is_slash c); simpl; lia. Qed.

Lemma drop_slashes_id l : is_slash (str_head l) = false → drop_slashes l = l.
Proof. destruct l as [|c l]; simpl; [done|]. by intros ->. Qed.

Lemma drop_slashes_replicate k l :
  drop_slashes (replicate k slash ++ l) = drop_slashes l.
Proof. induction k; simpl; done. Qed.

Lemma cut_slash_None p h :
  cut_slash p = (h, None) → p = h ∧ (slash ∉ h).
Proof.
  revert h. induction p as [|c p IH]; simpl; intros h.
  - intros [= <-]. split; [done|]. apply not_elem_of_nil.
  - destruct (is_slash c) eqn:Hc; [done|].
    destruct (cut_slash p) as [h' s']. intros [= <- ->].
    destruct (IH h' eq_refl) as [-> Hn]. split; [done|].
    apply not_elem_of_cons. split; [|done]. apply is_slash_false in Hc. congruence.
Qed.

Lemma cut_slash_Some p h s :
  cut_slash p = (h, Some s) →
  ∃ k, p = h ++ slash :: replicate k slash ++ s ∧ (slash ∉ h) ∧
       is_slash (str_head s) = false.
Proof.
  revert h. induction p as [|c p IH]; simpl; intros h; [done|].
  destruct (is_slash c) eqn:Hc.
  - intros [= <- <-]. apply is_slash_true in Hc as ->.
    destruct (drop_slashes_spec p) as [k [Hp Hh]]. exists k.
    simpl. rewrite <- Hp. split; [done|]. split; [apply not_elem_of_nil|done].
  - destruct (cut_slash p) as [h' s']. intros [= <- ->].
    destruct (IH h' eq_refl) as [k [-> [Hn Hh]]]. exists k.
    split; [done|]. split; [|done].
    apply not_elem_of_cons. split; [|done]. apply is_slash_false in Hc. congruence.
Qed.

Lemma cut_slash_shorter p h s :
  cut_slash p = (h, Some s) → (length s < length p)%nat.
Proof.
  intros H. apply cut_slash_Some in H as [k [-> _]].
  rewrite length_app. simpl. rewrite length_app. lia.
Qed.

Lemma components_nonempty p :
  p ≠ [] → is_slash (str_head p) = false → components p ≠ [].
Proof.
  destruct p as [|c p]; [done|]. simpl. intros _ ->.
  destruct (components p); [done|]. by destruct (is_slash (str_head p)).
Qed.

Lemma components_app_slash a b :
  components (a ++ slash :: b) = components a ++ components b.
Proof.
  induction a as [|c a IH]; [done|]. simpl.
  destruct (is_slash c) eqn:Hc; [done|]. rewrite IH.
  destruct a as [|c' a]; [by destruct (components b)|]. simpl in *.
  destruct (is_slash c') eqn:Hc'.
  - destruct (components a) as [|x xs] eqn:Ha; simpl.
    + by destruct (components b).
    + done.
  - assert (components (c' :: a) ≠ []) as Hne
      by (apply components_nonempty; simpl; done).
    simpl in Hne. rewrite Hc' in Hne.
    destruct (components a) as [|x xs]; simpl.
    + done.
    + by destruct (is_slash (str_head a)).
Qed.

Lemma components_slashes k p :
  components (replicate k slash ++ p) = components p.
Proof. induction k; simpl; done. Qed.

Lemma components_name h : h ≠ [] → slash ∉ h → components h = [h].
Proof.
  induction h as [|c h IH]; [done|]. intros _ Hn.
  apply not_elem_of_cons in Hn as [Hc Hn]. simpl.
  assert (is_slash c = false) as -> by (apply is_slash_false; congruence).
  destruct h as [|c' h]; [done|].
  rewrite IH; [|done|done].
  apply not_elem_of_cons in Hn as [Hc' _]. simpl.
  assert (is_slash c' = false) as -> by (apply is_slash_false; congruence). done.
Qed.

Lemma components_cut_Some p h s :
  cut_slash p = (h, Some s) → h ≠ [] → components p = h :: components s.
Proof.
  intros H Hne. apply cut_slash_Some in H as [k [-> [Hn _]]].
  rewrite components_app_slash, components_slashes, components_name; done.
Qed.

Lemma components_cut_None p h :
  cut_slash p = (h, None) → h ≠ [] → components p = [h].
Proof.
  intros H Hne. apply cut_slash_None in H as [-> Hn]. by apply components_name.
Qed.

Lemma bind_eq {A B} (m : M A) (f : A → M B) fs :
  (m ≫= f) fs =
  match m fs with
  | Done a fs' => f a fs'
  | Abort e fs' => Abort e fs'
  | Undefined => Undefined
  | Diverge => Diverge
  end.
Proof. reflexivity. Qed.

Lemma assert_eq b e fs : assert b e fs = if b then Done tt fs else Abort e fs.
Proof. reflexivity. Qed.

Lemma str_head_not_slash c : slash ∉ c → is_slash (str_head c) = false.
Proof.
  destruct c as [|a c]; simpl; [done|]. intros H.
  apply is_slash_false. intros ->. apply H. left.
Qed.

Lemma trailing_slash_not_slash c : slash ∉ c → trailing_slash c = false.
Proof.
  unfold trailing_slash. intros H. destruct (last c) as [a|] eqn:Hl; [|done].
  apply is_slash_false. intros ->. apply H. apply last_Some in Hl as [l' ->].
  apply elem_of_app. right. left.
Qed.

Lemma resolve_name fs c :
  c ≠ [] → slash ∉ c → resolve fs c = walk (fs_nodes fs) (fs_cwd fs) [c].
Proof.
  intros Hne Hn. unfold resolve. rewrite decide_False by done.
  rewrite str_head_not_slash by done. by rewrite components_name.
Qed.

Lemma walk_name nodes dir c :
  is_dir nodes dir = true → proper_name c → walk nodes dir [c] = inr (dir ++ [c]).
Proof.
  unfold is_dir. intros Hd (Hne & Hn & Hdot & Hdd & Hlen). simpl.
  destruct (nodes !! dir) as [st|]; [|done]. rewrite Hd. simpl.
  destruct (NAME_MAX <? length c)%nat eqn:Hl; [apply Nat.ltb_lt in Hl; lia|].
  unfold step. by rewrite !decide_False.
Qed.

Lemma removelast_snoc {A} (l : list A) x : removelast (l ++ [x]) = l.
Proof. rewrite removelast_app by done. simpl. apply app_nil_r. Qed.

(** What [_mkdir] does for a name without slash. *)
Lemma _mkdir_spec c mode fs :
  slash ∉ c →
  match _mkdir c mode fs with
  | Done _ fs' =>
      proper_name c ∧ is_dir (fs_nodes fs) (fs_cwd fs) = true ∧
      is_dir (fs_nodes fs') (fs_cwd fs ++ [c]) = true ∧
      fs_cwd fs' = fs_cwd fs ∧ same_env fs fs' ∧
      (fs' = fs ∨
       fs_nodes fs !! (fs_cwd fs ++ [c]) = None ∧
       ∃ st, fs_nodes fs' = <[fs_cwd fs ++ [c] := st]> (fs_nodes fs))
  | Abort e fs' => fs' = fs ∧ mkdir_failure e = true
  | Undefined => True
  | Diverge => False
  end.
Proof.
  intros Hn. unfold _mkdir. rewrite !bind_eq, !assert_eq.
  case_bool_decide as H1; simpl; [done|].
  rewrite !bind_eq, !assert_eq.
  case_bool_decide as H2; simpl; [done|].
  rewrite !bind_eq, !assert_eq.
  case_bool_decide as H3; simpl; [done|].
  rewrite !bind_eq, !assert_eq.
  case_bool_decide as H4; simpl; [done|].
  assert (c ≠ []) as Hne by (intros ->; by apply H1).
  rewrite bind_eq. unfold stat, sys_stat. rewrite resolve_name by done.
  destruct (fs_nodes fs !! fs_cwd fs) as [d|] eqn:Hd.
  2:{ simpl. rewrite Hd. rewrite bind_eq. unfold mkdir, call, sys_mkdir.
      rewrite resolve_name by done. simpl. rewrite Hd. done. }
  destruct (S_ISDIR d) eqn:Hdir.
  2:{ simpl. rewrite Hd, Hdir. done. }
  destruct (NAME_MAX <? length c)%nat eqn:Hlen.
  { simpl. rewrite Hd, Hdir. simpl. rewrite Hlen. done. }
  assert (proper_name c) as Hp.
  { split_and!; try done. apply Nat.ltb_ge in Hlen. lia. }
  assert (is_dir (fs_nodes fs) (fs_cwd fs) = true) as Hcd
    by (unfold is_dir; by rewrite Hd).
  rewrite walk_name by done.
  rewrite trailing_slash_not_slash by done. simpl.
  destruct (fs_nodes fs !! (fs_cwd fs ++ [c])) as [st|] eqn:Hst.
  - rewrite assert_eq. destruct (S_ISDIR st) eqn:Hs; [|done].
    split_and!; try done. { unfold is_dir. by rewrite Hst. } by left.
  - rewrite bind_eq. unfold mkdir, call, sys_mkdir.
    rewrite resolve_name by done. rewrite walk_name by done. rewrite Hst.
    rewrite removelast_snoc, Hcd. simpl.
    destruct (fs_free_inodes fs <=? 0); [done|]. rewrite assert_eq. simpl.
    split_and!; try done.
    { unfold is_dir. by rewrite lookup_insert_eq. }
    right. split; [done|]. eauto.
Qed.

Lemma same_env_refl fs : same_env fs fs.
Proof. by unfold same_env. Qed.

Lemma same_env_trans fs1 fs2 fs3 :
  same_env fs1 fs2 → same_env fs2 fs3 → same_env fs1 fs3.
Proof. unfold same_env. intros (?&?&?&?) (?&?&?&?). split_and!; congruence. Qed.

Lemma same_env_set_cwd d fs : same_env fs (set_cwd d fs).
Proof. by unfold same_env. Qed.

Lemma is_dir_mono (n n' : gmap (list (list ascii)) inode) loc :
  n ⊆ n' → is_dir n loc = true → is_dir n' loc = true.
Proof.
  unfold is_dir. intros Hsub. destruct (n !! loc) as [st|] eqn:Hl; [|done].
  by rewrite (lookup_weaken _ _ _ _ Hl Hsub).
Qed.

Lemma open_dot fs :
  is_dir (fs_nodes fs) (fs_cwd fs) = true →
  sys_open_rdonly fs (str ".") = inr (fs_cwd fs).
Proof.
  unfold is_dir, sys_open_rdonly, resolve. simpl.
  destruct (fs_nodes fs !! fs_cwd fs) as [st|] eqn:Hd; [|done].
  intros Hs. rewrite Hs. simpl. unfold step. simpl. by rewrite Hd.
Qed.

Lemma chdir_name fs c :
  proper_name c → is_dir (fs_nodes fs) (fs_cwd fs) = true →
  is_dir (fs_nodes fs) (fs_cwd fs ++ [c]) = true →
  sys_chdir fs c = inr (set_cwd (fs_cwd fs ++ [c]) fs).
Proof.
  intros Hp Hcd Hd. unfold sys_chdir. destruct Hp as (Hne & Hn & ?).
  rewrite resolve_name by done. rewrite walk_name by done.
  unfold is_dir in Hd. destruct (fs_nodes fs !! (fs_cwd fs ++ [c])); [|done].
  by rewrite Hd.
Qed.

Lemma fchdir_dir fs d :
  is_dir (fs_nodes fs) d = true → sys_fchdir fs d = inr (set_cwd d fs).
Proof.
  unfold is_dir, sys_fchdir. destruct (fs_nodes fs !! d); [|done]. by intros ->.
Qed.

Lemma app_snoc_ne {A} (l : list A) x : l ++ [x] ≠ l.
Proof.
  intros H. apply (f_equal length) in H. rewrite length_app in H. simpl in H. lia.
Qed.

Lemma cut_slash_no_slash p h s : cut_slash p = (h, s) → slash ∉ h.
Proof.
  destruct s as [s|]; intros H.
  - apply cut_slash_Some in H as (k & _ & Hn & _). done.
  - apply cut_slash_None in H as [_ Hn]. done.
Qed.

Lemma cut_slash_head p h s :
  cut_slash p = (h, s) → h ≠ [] → str_head p = str_head h.
Proof.
  destruct p as [|c p]; simpl; [by intros [= <- <-]|].
  destruct (is_slash c); [by intros [= <- <-]|].
  destruct (cut_slash p). by intros [= <- <-].
Qed.

Lemma _mkdir_p_rec_spec fuel : ∀ path mode fs,
  (length path < fuel)%nat →
  match _mkdir_p_rec fuel path mode fs with
  | Done _ fs' =>
      let cs := components path in
      cs ≠ [] ∧ Forall proper_name cs ∧ is_slash (str_head path) = false ∧
      fs_cwd fs' = fs_cwd fs ∧ same_env fs fs' ∧ fs_nodes fs ⊆ fs_nodes fs' ∧
      (∀ k, (k ≤ length cs)%nat →
            is_dir (fs_nodes fs') (fs_cwd fs ++ take k cs) = true) ∧
      (∀ loc, (∀ k, (0 < k ≤ length cs)%nat → loc ≠ fs_cwd fs ++ take k cs) →
              fs_nodes fs' !! loc = fs_nodes fs !! loc)
  | Abort e fs' =>
      mkdir_failure e = true ∧ same_env fs fs' ∧ fs_nodes fs ⊆ fs_nodes fs'
  | Undefined => True
  | Diverge => False
  end.
Proof.
  induction fuel as [|fuel IH]; intros path mode fs Hlen; [lia|].
  simpl. destruct (cut_slash path) as [h s] eqn:Hcut.
  pose proof (cut_slash_no_slash _ _ _ Hcut) as Hn.
  rewrite bind_eq. pose proof (_mkdir_spec h mode fs Hn) as Hm.
  destruct (_mkdir h mode fs) as [[] fs1|e fs1| |]; [| |done|done].
  2:{ destruct Hm as [-> He]. split_and!; [done|apply same_env_refl|done]. }
  destruct Hm as (Hp & Hcd & Hd1 & Hcwd1 & Henv1 & Hch).
  assert (fs_nodes fs ⊆ fs_nodes fs1) as Hsub1.
  { destruct Hch as [->|[Hnone [st ->]]]; [done|]. by apply insert_subseteq. }
  assert (∀ loc, loc ≠ fs_cwd fs ++ [h] →
                 fs_nodes fs1 !! loc = fs_nodes fs !! loc) as Hfr1.
  { intros loc Hloc. destruct Hch as [->|[Hnone [st ->]]]; [done|].
    by apply lookup_insert_ne. }
  assert (h ≠ []) as Hne by apply Hp.
  assert (is_slash (str_head path) = false) as Hhead.
  { rewrite (cut_slash_head _ _ _ Hcut Hne). by apply str_head_not_slash. }
  destruct s as [s|].
  - pose proof (components_cut_Some _ _ _ Hcut Hne) as Hcs.
    rewrite bind_eq. unfold open_rdonly.
    assert (is_dir (fs_nodes fs1) (fs_cwd fs1) = true) as Hcd1.
    { rewrite Hcwd1. by eapply is_dir_mono. }
    rewrite open_dot by done. rewrite bind_eq, assert_eq. simpl.
    rewrite bind_eq. unfold _chdir. rewrite bind_eq. unfold chdir, call.
    rewrite chdir_name; [|done|done|by rewrite Hcwd1]. rewrite assert_eq. simpl.
    rewrite bind_eq.
    specialize (IH s mode (set_cwd (fs_cwd fs1 ++ [h]) fs1)).
    assert (length s < fuel)%nat as Hlen'.
    { pose proof (cut_slash_shorter _ _ _ Hcut). lia. }
    specialize (IH Hlen').
    destruct (_mkdir_p_rec fuel s mode (set_cwd (fs_cwd fs1 ++ [h]) fs1))
      as [[] fs3|e fs3| |]; [| |done|done].
    2:{ destruct IH as (He & Henv3 & Hsub3). split_and!; [done| |].
        - eapply same_env_trans; [exact Henv1|].
          eapply same_env_trans; [apply same_env_set_cwd|exact Henv3].
        - etrans; [exact Hsub1|exact Hsub3]. }
    simpl in IH. destruct IH as (Hcs3 & Hps & Hhs & Hcwd3 & Henv3 & Hsub3 & Hdirs & Hfr3).
    rewrite bind_eq. unfold fchdir, call.
    rewrite fchdir_dir by (eapply is_dir_mono; done).
    simpl. rewrite Hcs. rewrite Hcwd1 in *.
    split_and!; try done.
    + by constructor.
    + eapply same_env_trans; [exact Henv1|].
      eapply same_env_trans; [apply same_env_set_cwd|].
      eapply same_env_trans; [exact Henv3|apply same_env_set_cwd].
    + etrans; [exact Hsub1|exact Hsub3].
    + intros [|k] Hk; simpl.
      * rewrite app_nil_r. eapply is_dir_mono; [exact Hsub3|].
        eapply is_dir_mono; [exact Hsub1|done].
      * simpl in Hk. specialize (Hdirs k ltac:(lia)).
        by rewrite <- app_assoc in Hdirs.
    + intros loc Hloc. rewrite Hfr3.
      * apply Hfr1. specialize (Hloc 1%nat). simpl in Hloc.
        rewrite take_0 in Hloc. apply Hloc. lia.
      * intros k Hk. specialize (Hloc (S k)). simpl in Hloc.
        rewrite <- app_assoc. simpl. apply Hloc. lia.
  - pose proof (components_cut_None _ _ Hcut Hne) as Hcs.
    simpl. rewrite Hcs. split_and!; try done.
    + by constructor.
    + intros [|[|k]] Hk; simpl in *; [|done|lia].
      rewrite app_nil_r. by eapply is_dir_mono.
    + intros loc Hloc. apply Hfr1. specialize (Hloc 1%nat). apply Hloc. simpl. lia.
Qed.

(** dirname *)
Lemma drop_name_spec l :
  ∃ n, l = n ++ drop_name l ∧ (slash ∉ n) ∧
       (drop_name l = [] ∨ str_head (drop_name l) = slash).
Proof.
  induction l as [|c l (n & Hl & Hn & Hh)]; simpl.
  - exists []. split_and!; [done|apply not_elem_of_nil|by left].
  - destruct (is_slash c) eqn:Hc.
    + exists []. split_and!; [done|apply not_elem_of_nil|].
      right. simpl. by apply is_slash_true.
    + exists (c :: n). split_and!; [by rewrite <- app_comm_cons, <- Hl| |done].
      apply not_elem_of_cons. split; [|done]. apply is_slash_false in Hc. congruence.
Qed.

Lemma drop_slashes_no_slash l : slash ∉ l → drop_slashes l = l.
Proof. intros H. apply drop_slashes_id. by apply str_head_not_slash. Qed.

Lemma drop_name_no_slash l : slash ∉ l → drop_name l = [].
Proof.
  induction l as [|c l IH]; [done|]. intros H.
  apply not_elem_of_cons in H as [Hc Hl]. simpl.
  assert (is_slash c = false) as -> by (apply is_slash_false; congruence). auto.
Qed.

Lemma not_elem_of_reverse {A} (x : A) l : x ∉ l → x ∉ reverse l.
Proof. intros H Hr. apply H. by apply elem_of_reverse. Qed.

Lemma dirname_no_slash p : slash ∉ p → dirname p = str ".".
Proof.
  intros H. unfold dirname.
  rewrite drop_slashes_no_slash by by apply not_elem_of_reverse.
  destruct (reverse p) as [|c r] eqn:Hr.
  - apply (f_equal reverse) in Hr. rewrite reverse_involutive in Hr.
    subst p. done.
  - rewrite drop_name_no_slash.
    + simpl. done.
    + rewrite <- Hr. by apply not_elem_of_reverse.
Qed.

Lemma reverse_replicate {A} k (x : A) : reverse (replicate k x) = replicate k x.
Proof.
  induction k as [|k IH]; [done|]. simpl. rewrite reverse_cons, IH.
  clear IH. induction k as [|k IH]; [done|]. simpl. by rewrite IH.
Qed.

(** The shape of a path with a directory part. *)
Lemma dirname_spec p :
  dirname p = str "." ∨ dirname p = str "/" ∧ is_slash (str_head p) = true ∨
  ∃ k name j,
    p = dirname p ++ slash :: replicate k slash ++ name ++ replicate j slash ∧
    name ≠ [] ∧ (slash ∉ name) ∧ dirname p ≠ [] ∧
    is_slash (str_head (reverse (dirname p))) = false.
Proof.
  unfold dirname.
  destruct (drop_slashes_spec (reverse p)) as (j & Hr & Hh1).
  destruct (drop_name_spec (drop_slashes (reverse p))) as (n & Hr1 & Hn & Hr2).
  destruct (drop_slashes_spec (drop_name (drop_slashes (reverse p))))
    as (k & Hr2' & Hh2).
  assert (p = reverse (drop_slashes (drop_name (drop_slashes (reverse p)))) ++
              replicate k slash ++ reverse n ++ replicate j slash) as Hp.
  { rewrite <- (reverse_involutive p) at 1. rewrite Hr at 1. rewrite Hr1 at 1.
    rewrite Hr2' at 1. rewrite !reverse_app, !reverse_replicate.
    by rewrite <- !app_assoc. }
  destruct (drop_slashes (reverse p)) as [|c1 r1] eqn:E1.
  { destruct (decide (p = [])); [by left|]. right. left. split; [done|].
    rewrite app_nil_r in Hr. apply (f_equal reverse) in Hr.
    rewrite reverse_involutive, reverse_replicate in Hr. subst p.
    destruct j; done. }
  destruct (drop_slashes (drop_name (c1 :: r1))) as [|c2 d] eqn:E2.
  { destruct (decide (drop_name (c1 :: r1) = [])) as [|Hne]; [by left|].
    right. left. split; [done|]. rewrite Hp. rewrite app_nil_r in Hr2'.
    destruct k; [by rewrite Hr2' in Hne|]. done. }
  right. right.
  assert (n ≠ []) as Hnn.
  { intros ->. rewrite app_nil_l in Hr1. rewrite <- Hr1 in Hr2.
    destruct Hr2 as [|Hs]; [done|]. simpl in Hs, Hh1. subst c1. done. }
  destruct k as [|k].
  { rewrite app_nil_l in Hr2'. rewrite Hr2' in Hr2.
    destruct Hr2 as [|Hs]; [done|]. simpl in Hs, Hh2. subst c2. done. }
  exists k, (reverse n), j. split_and!.
  - exact Hp.
  - intros Hrn. apply Hnn. apply (f_equal reverse) in Hrn.
    by rewrite reverse_involutive in Hrn.
  - by apply not_elem_of_reverse.
  - intros Hrd. apply (f_equal reverse) in Hrd.
    by rewrite reverse_involutive in Hrd.
  - by rewrite reverse_involutive.
Qed.

Lemma walk_app nodes cs : ∀ dir cs2,
  dirs_ready nodes dir cs →
  walk nodes dir (cs ++ cs2) = walk nodes (dir ++ cs) cs2.
Proof.
  induction cs as [|c cs IH]; intros dir cs2 [Hp Hd].
  - by rewrite app_nil_r.
  - apply Forall_cons in Hp as [Hc Hp].
    pose proof (Hd 0%nat ltac:(lia)) as Hd0. simpl in Hd0. rewrite app_nil_r in Hd0.
    rewrite <- app_comm_cons.
    change (walk nodes dir (c :: (cs ++ cs2))) with
      (match nodes !! dir with
       | None => inl ENOENT
       | Some st =>
           if negb (S_ISDIR st) then inl ENOTDIR
           else if (NAME_MAX <? length c)%nat then inl ENAMETOOLONG
           else walk nodes (step dir c) (cs ++ cs2)
       end).
    unfold is_dir in Hd0. destruct (nodes !! dir) as [st|]; [|done].
    rewrite Hd0. simpl. destruct Hc as (Hne & Hn & Hdot & Hdd & Hlen).
    destruct (NAME_MAX <? length c)%nat eqn:Hl; [apply Nat.ltb_lt in Hl; lia|].
    unfold step. rewrite !decide_False by done.
    rewrite IH.
    + by rewrite <- app_assoc.
    + split; [done|]. intros k Hk. specialize (Hd (S k)). simpl in Hd.
      rewrite <- app_assoc. simpl. apply Hd. lia.
Qed.

Lemma is_dir_insert_ne (nodes : gmap (list (list ascii)) inode) loc st l :
  l ≠ loc → is_dir (<[loc := st]> nodes) l = is_dir nodes l.
Proof. intros H. unfold is_dir. by rewrite lookup_insert_ne. Qed.

Lemma dirs_ready_insert nodes dir cs name st :
  dirs_ready nodes dir cs →
  dirs_ready (<[dir ++ cs ++ [name] := st]> nodes) dir cs.
Proof.
  intros [Hp Hd]. split; [done|]. intros k Hk.
  rewrite is_dir_insert_ne; [by apply Hd|].
  intros H. apply app_inv_head in H. apply (f_equal length) in H.
  rewrite length_take, length_app in H. simpl in H. lia.
Qed.

Lemma trailing_slash_snoc p c : trailing_slash (p ++ [c]) = is_slash c.
Proof. unfold trailing_slash. by rewrite last_snoc. Qed.

Lemma trailing_slash_replicate p j :
  trailing_slash (p ++ replicate (S j) slash) = true.
Proof.
  rewrite replicate_S_end, app_assoc. by rewrite trailing_slash_snoc.
Qed.

Lemma str_head_app p q : p ≠ [] → str_head (p ++ q) = str_head p.
Proof. by destruct p. Qed.

(** Resolution of [d/name] once the directories of [d] exist. *)
Lemma resolve_file fs d k name :
  d ≠ [] → is_slash (str_head d) = false → name ≠ [] → slash ∉ name →
  dirs_ready (fs_nodes fs) (fs_cwd fs) (components d) →
  resolve fs (d ++ slash :: replicate k slash ++ name) =
  if (NAME_MAX <? length name)%nat then inl ENAMETOOLONG
  else inr (step (fs_cwd fs ++ components d) name).
Proof.
  intros Hd Hh Hne Hn Hr. unfold resolve.
  rewrite decide_False by (by destruct d).
  rewrite str_head_app, Hh by done.
  rewrite components_app_slash, components_slashes.
  rewrite (components_name name) by done.
  rewrite walk_app by done. simpl.
  destruct Hr as [_ Hr]. specialize (Hr (length (components d)) ltac:(lia)).
  rewrite firstn_all in Hr. unfold is_dir in Hr.
  destruct (fs_nodes fs !! (fs_cwd fs ++ components d)); [|done].
  by rewrite Hr.
Qed.

Lemma step_special nodes dir cs name :
  cs ≠ [] → dirs_ready nodes dir cs →
  name = str "." ∨ name = str ".." →
  is_dir nodes (step (dir ++ cs) name) = true.
Proof.
  intros Hne [_ Hd] [-> | ->]; unfold step; simpl.
  - specialize (Hd (length cs) ltac:(lia)). by rewrite firstn_all in Hd.
  - destruct (exists_last Hne) as (cs' & c & ->).
    rewrite app_assoc, removelast_snoc.
    specialize (Hd (length cs') ltac:(rewrite length_app; lia)).
    by rewrite take_app_length in Hd.
Qed.

Lemma step_proper dir name : proper_name name → step dir name = dir ++ [name].
Proof. intros (?&?&?&?&?). unfold step. by rewrite !decide_False. Qed.

Lemma fopen_w_file fs d k name loc fs2 :
  d ≠ [] → is_slash (str_head d) = false → name ≠ [] → slash ∉ name →
  components d ≠ [] →
  dirs_ready (fs_nodes fs) (fs_cwd fs) (components d) →
  sys_fopen_w fs (d ++ slash :: replicate k slash ++ name) = inr (loc, fs2) →
  proper_name name ∧ loc = fs_cwd fs ++ components d ++ [name] ∧
  is_dir (fs_nodes fs) loc = false ∧
  ∃ st0, fs_nodes fs2 = <[loc := st0]> (fs_nodes fs) ∧
         st_type st0 = S_IFREG ∧ st_data st0 = [] ∧
         fs_cwd fs2 = fs_cwd fs ∧ fs_free_bytes fs ≤ fs_free_bytes fs2 ∧
         fs_umask fs2 = fs_umask fs ∧ fs_clock fs2 = fs_clock fs ∧
         fs_stdout fs2 = fs_stdout fs.
Proof.
  intros Hd Hh Hne Hn Hcs Hr. unfold sys_fopen_w.
  rewrite resolve_file by done.
  destruct (NAME_MAX <? length name)%nat eqn:Hlen; [done|].
  destruct (trailing_slash _); [done|].
  destruct (decide (name = str "." ∨ name = str "..")) as [Hsp|Hsp].
  { pose proof (step_special _ _ _ _ Hcs Hr Hsp) as Hdir.
    unfold is_dir in Hdir.
    destruct (fs_nodes fs !! step (fs_cwd fs ++ components d) name); [|done].
    by rewrite Hdir. }
  assert (proper_name name) as Hp.
  { split_and!; try done; [naive_solver|naive_solver|].
    apply Nat.ltb_ge in Hlen. lia. }
  rewrite step_proper by done. rewrite <- app_assoc.
  destruct (fs_nodes fs !! (fs_cwd fs ++ components d ++ [name])) as [st|] eqn:Hst.
  - destruct (S_ISDIR st) eqn:Hs; [done|]. intros [= <- <-].
    split_and!; [done|done|by unfold is_dir; rewrite Hst|].
    eexists. simpl. split_and!; try done. lia.
  - destruct (negb _); [done|]. destruct (_ <=? 0); [done|]. intros [= <- <-].
    split_and!; [done|done|by unfold is_dir; rewrite Hst|].
    eexists. simpl. split_and!; done.
Qed.

Lemma fopen_w_no_trailing fs p r : sys_fopen_w fs p = inr r → trailing_slash p = false.
Proof.
  unfold sys_fopen_w. destruct (resolve fs p); [done|].
  by destruct (trailing_slash p).
Qed.

Lemma call_eq f fs :
  call f fs = match f fs with inl e => Done (inl e) fs | inr fs' => Done (inr tt) fs' end.
Proof. reflexivity. Qed.

Lemma chmod_file fs p loc st mode :
  resolve fs p = inr loc → fs_nodes fs !! loc = Some st →
  trailing_slash p = false →
  sys_chmod fs p mode =
  inr (set_nodes (<[loc := Inode (st_type st) (st_data st) (Z.land mode ALLPERMS)
                               (st_atime st) (st_mtime st)]> (fs_nodes fs)) fs).
Proof. intros Hr Hl Ht. unfold sys_chmod. by rewrite Hr, Hl, Ht. Qed.

Lemma utime_file fs p loc st a m :
  resolve fs p = inr loc → fs_nodes fs !! loc = Some st →
  trailing_slash p = false →
  sys_utime fs p a m =
  inr (set_nodes (<[loc := Inode (st_type st) (st_data st) (st_perm st) a m]>
                    (fs_nodes fs)) fs).
Proof. intros Hr Hl Ht. unfold sys_utime. by rewrite Hr, Hl, Ht. Qed.

Lemma components_drop_slashes p : components (drop_slashes p) = components p.
Proof.
  destruct (drop_slashes_spec p) as (k & Hp & _).
  rewrite Hp at 2. by rewrite components_slashes.
Qed.

Lemma proper_name_dot : ¬ proper_name (str ".").
Proof. by intros (?&?&?&?). Qed.

(** A run of [save_buf] that returns. *)
Lemma save_buf_Done path buf size mode time fs fs' :
  save_buf path buf size mode time fs = Done tt fs' →
  let cs := components path in
  ∃ n,
    (2 ≤ length cs)%nat ∧ Forall proper_name cs ∧
    size ≤ Z.of_nat (length buf) ∧
    (size ≤ fs_free_bytes fs → n = Z.to_nat size) ∧
    fs_nodes fs' !! (fs_cwd fs ++ cs) =
      Some (Inode S_IFREG (take n buf) (Z.land mode ALLPERMS) time time) ∧
    (∀ k, (k < length cs)%nat →
          is_dir (fs_nodes fs') (fs_cwd fs ++ take k cs) = true) ∧
    (∀ loc, (∀ k, (0 < k ≤ length cs)%nat → loc ≠ fs_cwd fs ++ take k cs) →
            fs_nodes fs' !! loc = fs_nodes fs !! loc) ∧
    (∀ loc st, fs_nodes fs !! loc = Some st → S_ISDIR st = true →
               fs_nodes fs' !! loc = Some st) ∧
    fs_cwd fs' = fs_cwd fs ∧ fs_stdout fs' = fs_stdout fs ∧
    fs_umask fs' = fs_umask fs ∧ fs_clock fs' = fs_clock fs.
Proof.
  unfold save_buf, mkdir_p_fn, _mkdir_p. rewrite bind_eq.
  set (p := drop_slashes path). set (d := dirname p).
  pose proof (_mkdir_p_rec_spec (S (length d)) d ACCESSPERMS fs ltac:(lia)) as Hm.
  destruct (_mkdir_p_rec (S (length d)) d ACCESSPERMS fs) as [[] fs1|e fs1| |];
    [|done..].
  simpl in Hm.
  destruct Hm as (Hcs & Hps & Hhd & Hcwd1 & Henv1 & Hsub1 & Hdirs1 & Hfr1).
  destruct (dirname_spec p) as [Hdot|[[Hsl Hhp]|(k & name & j & Hp & Hne & Hn & Hdne & _)]].
  { exfalso. fold d in Hdot. rewrite Hdot in Hps. simpl in Hps.
    apply Forall_cons in Hps as [Hps _]. by apply proper_name_dot. }
  { exfalso. fold d in Hsl. by rewrite Hsl in Hhd. }
  fold d in Hp, Hdne.
  rewrite bind_eq. unfold fopen_w.
  destruct (sys_fopen_w fs1 p) as [e|[loc fs2]] eqn:Hfo; [done|].
  pose proof (fopen_w_no_trailing _ _ _ Hfo) as Htr.
  destruct j as [|j].
  2:{ assert (p = (d ++ slash :: replicate k slash ++ name) ++
                      replicate (S j) slash) as Hp'.
      { rewrite Hp at 1. rewrite <- app_assoc. simpl. by rewrite <- !app_assoc. }
      rewrite Hp' in Htr. by rewrite trailing_slash_replicate in Htr. }
  rewrite app_nil_r in Hp.
  assert (dirs_ready (fs_nodes fs1) (fs_cwd fs1) (components d)) as Hr1.
  { split; [done|]. by rewrite Hcwd1. }
  rewrite Hp in Hfo.
  apply fopen_w_file in Hfo
    as (Hpn & -> & Hnd & st0 & Hn2 & Ht0 & Hd0 & Hcwd2 & Hfree2 & Hum2 & Hcl2 & Hout2);
    [|done..].
  rewrite bind_eq, assert_eq. simpl. rewrite !bind_eq. unfold fwrite.
  destruct (size <=? Z.of_nat (length buf)) eqn:Hsz; [|done].
  apply Z.leb_le in Hsz.
  destruct (sys_fwrite fs2 buf size _) as [r fs3] eqn:Hfw.
  unfold sys_fwrite in Hfw. injection Hfw as _ Hfs3.
  rewrite !bind_eq. simpl. rewrite bind_eq. unfold chmod. rewrite call_eq.
  set (loc := fs_cwd fs1 ++ components d ++ [name]) in *.
  set (n := Z.to_nat (Z.min size (Z.max 0 (fs_free_bytes fs2)))) in *.
  assert (fs_nodes fs3 =
          <[loc := Inode S_IFREG (take n buf) (st_perm st0) (st_atime st0)
                     (fs_clock fs2)]> (fs_nodes fs1)) as Hn3.
  { rewrite <- Hfs3. simpl. rewrite Hn2. rewrite alter_insert_eq.
    by rewrite Ht0, Hd0. }
  assert (fs_cwd fs3 = fs_cwd fs1) as Hcwd3 by (by rewrite <- Hfs3).
  assert (∀ fsx stx, fs_nodes fsx = <[loc := stx]> (fs_nodes fs1) →
                     fs_cwd fsx = fs_cwd fs1 → resolve fsx p = inr loc) as Hres.
  { intros fsx stx Hnx Hcx. rewrite Hp. rewrite resolve_file; try done.
    - destruct Hpn as (?&?&?&?&Hl).
      destruct (NAME_MAX <? length name)%nat eqn:E; [apply Nat.ltb_lt in E; lia|].
      rewrite step_proper by done. rewrite Hcx. by rewrite <- app_assoc.
    - rewrite Hnx, Hcx. by apply dirs_ready_insert. }
  erewrite chmod_file; [|by eapply Hres| |done].
  2:{ rewrite Hn3. apply lookup_insert_eq. }
  simpl. rewrite bind_eq. unfold utime. rewrite call_eq.
  erewrite utime_file; [| |by apply lookup_insert_eq|done].
  2:{ eapply Hres; [|done]. simpl. rewrite Hn3. apply insert_insert_eq. }
  simpl. intros [= <-]. simpl.
  assert (components path = components d ++ [name]) as Hcsp.
  { rewrite <- components_drop_slashes. fold p. rewrite Hp.
    rewrite components_app_slash, components_slashes.
    by rewrite (components_name name). }
  rewrite Hcsp. rewrite Hn3. rewrite !insert_insert_eq. rewrite <- Hcwd1.
  exists n. split_and!.
  - rewrite length_app. simpl. destruct (components d); [done|simpl; lia].
  - apply Forall_app. split; [done|]. by constructor.
  - done.
  - intros Hfree. unfold n. f_equal.
    destruct Henv1 as (_&_&Hfb&_). lia.
  - apply lookup_insert_eq.
  - intros i Hi. rewrite length_app in Hi. simpl in Hi.
    rewrite take_app_le by lia. rewrite is_dir_insert_ne.
    + rewrite Hcwd1. apply Hdirs1. lia.
    + unfold loc. intros H. apply app_inv_head in H.
      apply (f_equal length) in H. rewrite length_take, length_app in H.
      simpl in H. lia.
  - intros l Hl. rewrite lookup_insert_ne.
    + apply Hfr1. intros i Hi. rewrite <- Hcwd1.
      specialize (Hl i). rewrite take_app_le in Hl by lia. apply Hl.
      rewrite length_app. lia.
    + intros <-. apply (Hl (length (components d ++ [name]))).
      * rewrite length_app. simpl. lia.
      * by rewrite firstn_all.
  - intros l st Hl Hs. assert (fs_nodes fs1 !! l = Some st) as Hl1
      by (by eapply lookup_weaken).
    rewrite lookup_insert_ne; [done|]. intros <-.
    unfold is_dir in Hnd. rewrite Hl1 in Hnd. congruence.
  - done.
  - destruct Henv1 as (_&_&_&Ho). by rewrite <- Hfs3, <- Ho.
  - destruct Henv1 as (Hu&_). by rewrite <- Hfs3, <- Hu.
  - destruct Henv1 as (_&Hc&_). by rewrite <- Hfs3, <- Hc.
Qed.

Lemma save_buf_not_Done path buf size mode time fs :
  match save_buf path buf size mode time fs with
  | Done _ _ => True
  | Abort e fs' => materialize_failure e = true ∧ fs_stdout fs' = fs_stdout fs
  | Undefined => True
  | Diverge => False
  end.
Proof.
  unfold save_buf, mkdir_p_fn, _mkdir_p. rewrite bind_eq.
  set (d := dirname (drop_slashes path)).
  pose proof (_mkdir_p_rec_spec (S (length d)) d ACCESSPERMS fs ltac:(lia)) as Hm.
  destruct (_mkdir_p_rec (S (length d)) d ACCESSPERMS fs) as [[] fs1|e fs1| |];
    [| |done|done].
  2:{ destruct Hm as (He & (_&_&_&Ho) & _). unfold materialize_failure.
      by rewrite He. }
  destruct Hm as (_ & _ & _ & _ & (_&_&_&Ho) & _).
  rewrite bind_eq. unfold fopen_w.
  destruct (sys_fopen_w fs1 (drop_slashes path)) as [e|[loc fs2]]; [done|].
  rewrite bind_eq, assert_eq. simpl. rewrite !bind_eq. unfold fwrite.
  destruct (size <=? Z.of_nat (length buf)); [|done].
  destruct (sys_fwrite fs2 buf size loc) as [r fs3].
  rewrite !bind_eq. simpl. rewrite bind_eq. unfold chmod. rewrite call_eq.
  destruct (sys_chmod fs3 _ _); simpl; rewrite bind_eq; unfold utime;
    rewrite call_eq; by destruct (sys_utime _ _ _ _).
Qed.

Lemma process_buf_eq buf count fs :
  process_buf buf count fs =
  if Z.of_nat sizeof_fwpart <=? count then
    match decode buf with
    | None => Undefined
    | Some r =>
        let fs1 := set_stdout (fs_stdout fs ++ record_log r) fs in
        if to_size_t (total_length r) <=? count then
          match save_buf (pt_path r) (payload buf) (pt_size r) (pt_mode r)
                  (pt_time r) fs1 with
          | Done _ fs' => Done (to_size_t (total_length r)) fs'
          | Abort e fs' => Abort e fs'
          | Undefined => Undefined
          | Diverge => Diverge
          end
        else Abort assert_payload fs1
    end
  else Abort assert_header fs.
Proof.
  unfold process_buf, decode.
  cbv [mbind M_bind mret M_ret rd printf assert undefined option_bind
       fmap option_fmap option_map option_ret].
  destruct (Z.of_nat sizeof_fwpart <=? count); [|done].
  destruct (strtoul (member f_size buf)) as [size|]; [|done].
  destruct (strtoul (member f_mode buf)) as [mode|]; [|done].
  destruct (strtoul (member f_time buf)) as [time|]; [|done].
  destruct (strtoul (member f_rsvd buf)) as [rsvd|]; [|done].
  destruct (cstr (member f_name buf)) as [name|]; [|done].
  destruct (cstr (member f_path buf)) as [path|]; [|done].
  destruct (cstr (member f_vers buf)) as [vers|]; [|done].
  cbv [set_stdout record_log total_length fs_stdout fs_nodes fs_cwd fs_umask
       fs_clock fs_free_inodes fs_free_bytes pt_size pt_path pt_mode pt_time
       pt_name pt_rsvd pt_vers].
  destruct fs as [nodes cwd um cl fi fb out].
  rewrite <- !app_assoc. simpl app.
  destruct (to_size_t (Z.of_nat sizeof_fwpart + size) <=? count); [|done].
  by destruct (save_buf _ _ _ _ _ _).
Qed.

Lemma digit_val_nonneg c d : digit_val c = Some d → 0 ≤ d.
Proof.
  unfold digit_val. intros H.
  repeat match type of H with
         | (if ?b then _ else _) = _ => destruct b eqn:?
         end; try done; injection H as <-; lia.
Qed.

Lemma strtoul_digits_nonneg base m : ∀ acc v,
  0 ≤ base → 0 ≤ acc → strtoul_digits base acc m = Some v → 0 ≤ v.
Proof.
  induction m as [|c m IH]; intros acc v Hb Ha; simpl; [done|].
  destruct (digit_val c) as [d|] eqn:Hd; [|by intros [= <-]].
  apply digit_val_nonneg in Hd.
  destruct (d <? base); [|by intros [= <-]].
  apply IH; [done|]. nia.
Qed.

Lemma strtoul_base0_nonneg m v : strtoul_base0 m = Some v → 0 ≤ v.
Proof.
  unfold strtoul_base0. intros H.
  repeat match type of H with
         | match ?x with _ => _ end = _ => destruct x
         end; try done;
    eapply strtoul_digits_nonneg in H; done.
Qed.

Lemma strtoul_range m v : strtoul m = Some v → 0 ≤ v ≤ ULONG_MAX.
Proof.
  unfold strtoul. destruct (skip_space m) as [|c m']; [done|].
  destruct (if decide (c = "-"%char) then (true, m')
            else if decide (c = "+"%char) then (false, m')
            else (false, c :: m')) as [neg m1].
  destruct (strtoul_base0 m1) as [w|] eqn:Hw; [|done]. simpl.
  apply strtoul_base0_nonneg in Hw. intros [= <-].
  destruct (ULONG_MAX <? w) eqn:Ho.
  - unfold ULONG_MAX. lia.
  - apply Z.ltb_ge in Ho. destruct neg; [|lia].
    pose proof (Z.mod_pos_bound (- w) (2 ^ 64) ltac:(lia)). unfold ULONG_MAX. lia.
Qed.

Lemma decode_size_range buf r :
  decode buf = Some r → 0 ≤ pt_size r ≤ ULONG_MAX.
Proof.
  unfold decode. destruct (strtoul (member f_size buf)) as [size|] eqn:Hs; [|done].
  simpl. intros H. apply strtoul_range in Hs.
  repeat match type of H with
         | (?x ≫= _) = _ => destruct x; simpl in H; [|done]
         end.
  by injection H as <-.
Qed.

Lemma sizeof_fwpart_eq : sizeof_fwpart = 256%nat.
Proof. reflexivity. Qed.

Lemma framing_total buf rs :
  framing buf rs →
  foldr (λ r s, total_length r + s) 0 rs = Z.of_nat (length buf).
Proof.
  induction 1 as [|buf r rs Hh Hd Ht _ IH]; [done|]. simpl. rewrite IH.
  rewrite length_drop. pose proof (decode_size_range _ _ Hd).
  unfold total_length in *. lia.
Qed.

Lemma process_mem_loop_spec buf rs :
  framing buf rs → ∀ fuel fs,
  (length buf < fuel)%nat → Z.of_nat (length buf) < 2 ^ 64 →
  match process_mem_loop fuel buf (Z.of_nat (length buf)) fs with
  | Done _ fs' => fs_stdout fs' = fs_stdout fs ++ concat (map record_log rs)
  | Abort e fs' =>
      materialize_failure e = true ∧
      ∃ k, (k < length rs)%nat ∧
           fs_stdout fs' =
           fs_stdout fs ++ concat (map record_log (take (S k) rs))
  | Undefined => True
  | Diverge => False
  end.
Proof.
  induction 1 as [|buf r rs Hh Hd Ht Hf IH]; intros fuel fs Hfuel Hmax.
  { destruct fuel; [simpl in Hfuel; lia|].
    change (fs_stdout fs = fs_stdout fs ++ []). symmetry. apply app_nil_r. }
  destruct fuel as [|fuel]; [lia|].
  pose proof (decode_size_range _ _ Hd) as Hsz.
  rewrite sizeof_fwpart_eq in Hh.
  assert (to_size_t (total_length r) = total_length r) as Hwrap.
  { unfold to_size_t. apply Z.mod_small. unfold total_length in *.
    rewrite sizeof_fwpart_eq in *. lia. }
  cbn [process_mem_loop].
  destruct (0 <? Z.of_nat (length buf)) eqn:Hpos; [|apply Z.ltb_ge in Hpos; lia].
  rewrite bind_eq, process_buf_eq.
  destruct (Z.of_nat sizeof_fwpart <=? Z.of_nat (length buf)) eqn:Hc1.
  2:{ apply Z.leb_gt in Hc1. rewrite sizeof_fwpart_eq in Hc1. lia. }
  rewrite Hd. cbv zeta. rewrite Hwrap.
  destruct (total_length r <=? Z.of_nat (length buf)) eqn:Hc2;
    [|apply Z.leb_gt in Hc2; lia].
  pose proof (save_buf_not_Done (pt_path r) (payload buf) (pt_size r) (pt_mode r)
                (pt_time r) (set_stdout (fs_stdout fs ++ record_log r) fs)) as Hnd.
  destruct (save_buf _ _ _ _ _ _) as [[] fs1|e fs1| |] eqn:Hsave; [| |done|done].
  2:{ destruct Hnd as [He Ho]. split; [done|]. exists 0%nat. split; [simpl; lia|].
      rewrite Ho. simpl. done. }
  apply save_buf_Done in Hsave as (n & _ & _ & _ & _ & _ & _ & _ & _ & _ & Ho & _).
  simpl in Ho.
  assert (to_size_t (Z.of_nat (length buf) - total_length r) =
          Z.of_nat (length (drop (Z.to_nat (total_length r)) buf))) as ->.
  { rewrite length_drop. unfold to_size_t. unfold total_length in *.
    rewrite Z.mod_small; lia. }
  specialize (IH fuel fs1).
  assert (length (drop (Z.to_nat (total_length r)) buf) < fuel)%nat as Hfuel'.
  { rewrite length_drop. unfold total_length in *. rewrite sizeof_fwpart_eq in *. lia. }
  specialize (IH Hfuel').
  assert (Z.of_nat (length (drop (Z.to_nat (total_length r)) buf)) < 2 ^ 64) as Hmax'.
  { rewrite length_drop. lia. }
  specialize (IH Hmax').
  destruct (process_mem_loop fuel _ _ fs1) as [[] fs2|e fs2| |]; [| |done|done].
  - rewrite IH, Ho. simpl. by rewrite <- app_assoc.
  - destruct IH as (He & k & Hk & Hout). split; [done|]. exists (S k).
    split; [simpl; lia|]. rewrite Hout, Ho.
    change (take (S (S k)) (r :: rs)) with (r :: take (S k) rs).
    simpl. by rewrite <- app_assoc.
Qed.

Lemma observe_done {A} (o : outcome A) (f : A → filesys → bool) :
  holds_on_done o f = true → ∃ a fs, o = Done a fs ∧ f a fs = true.
Proof. destruct o as [a fs|e fs| |]; try done. intros H. by exists a, fs. Qed.

Lemma process_buf_Done buf count fs n fs' :
  process_buf buf count fs = Done n fs' →
  ∃ r, decode buf = Some r ∧ n = to_size_t (total_length r) ∧
       Z.of_nat sizeof_fwpart ≤ count ∧ to_size_t (total_length r) ≤ count ∧
       save_buf (pt_path r) (payload buf) (pt_size r) (pt_mode r) (pt_time r)
         (set_stdout (fs_stdout fs ++ record_log r) fs) = Done tt fs'.
Proof.
  rewrite process_buf_eq.
  destruct (Z.of_nat sizeof_fwpart <=? count) eqn:H1; [|done].
  destruct (decode buf) as [r|]; [|done]. cbv zeta.
  destruct (to_size_t (total_length r) <=? count) eqn:H2; [|done].
  destruct (save_buf _ _ _ _ _ _) as [[] fs1|e fs1| |] eqn:Hs; try done.
  intros [= <- <-]. exists r. apply Z.leb_le in H1, H2. done.
Qed.

Lemma mkdir_p_dot mode fs :
  _mkdir_p (str ".") mode fs = Abort assert_path_not_dot fs.
Proof. reflexivity. Qed.

Lemma save_buf_bare path buf size mode time fs :
  slash ∉ drop_slashes path →
  save_buf path buf size mode time fs = Abort assert_path_not_dot fs.
Proof.
  intros Hbare. unfold save_buf, mkdir_p_fn. rewrite bind_eq.
  rewrite dirname_no_slash by done. by rewrite mkdir_p_dot.
Qed.

(** C10. A record whose path, after its leading slashes are removed,
    holds no '/' is never extracted: [dirname] yields ".", [_mkdir]
    rejects it by its assertion on line 70, and [save_buf] aborts in the
    state it was called in, before any file is opened. [process_buf] on
    such a record therefore aborts with the tree untouched. *)
Theorem bare_file_name_aborts path :
  slash ∉ drop_slashes path →
  (∀ buf size mode time fs,
     save_buf path buf size mode time fs = Abort assert_path_not_dot fs) ∧
  (∀ buf count r fs,
     decode buf = Some r → pt_path r = path →
     ∃ e fs', process_buf buf count fs = Abort e fs' ∧
              fs_nodes fs' = fs_nodes fs).
Proof.
  intros Hbare.
  assert (∀ buf size mode time fs,
            save_buf path buf size mode time fs = Abort assert_path_not_dot fs)
    as Hsave by (intros; by apply save_buf_bare).
  split; [done|]. intros buf count r fs Hd Hp. rewrite process_buf_eq, Hd.
  destruct (_ <=? count); [|by eauto]. cbv zeta.
  destruct (_ <=? count); [|by eauto]. rewrite Hp, Hsave. eauto.
Qed.

Lemma bare_file_name_aborts_witness :
  (slash ∉ drop_slashes (str "readme")) ∧
  decode ex_bare = Some ex_bare_pt ∧
  save_buf (str "readme") (str "hi") 2 420 99 ex_fs =
    Abort assert_path_not_dot ex_fs ∧
  ∃ e fs', process_buf ex_bare 258 ex_fs = Abort e fs' ∧
           fs_nodes fs' = fs_nodes ex_fs.
Proof.
  assert (slash ∉ drop_slashes (str "readme")) as H.
  { by_decide. }
  assert (decode ex_bare = Some ex_bare_pt) as Hd by (vm_compute; reflexivity).
  split; [exact H|]. split; [exact Hd|].
  destruct (bare_file_name_aborts (str "readme") H) as [H1 H2].
  split; [apply H1|]. apply (H2 ex_bare 258 ex_bare_pt ex_fs Hd). reflexivity.
Defined.

Lemma drop_slashes_idemp p : drop_slashes (drop_slashes p) = drop_slashes p.
Proof.
  destruct (drop_slashes_spec p) as (k & _ & Hh). by apply drop_slashes_id.
Qed.

Lemma save_buf_drop_slashes path buf size mode time :
  save_buf (drop_slashes path) buf size mode time =
  save_buf path buf size mode time.
Proof. unfold save_buf. by rewrite drop_slashes_idemp. Qed.

Lemma prefix_app_take (dir cs : list (list ascii)) k : dir `prefix_of` dir ++ take k cs.
Proof. by apply prefix_app_r. Qed.

(** C3. [save_buf] removes every leading '/' from the declared path
    before its first filesystem operation: the run on a path, on the path
    without its leading slashes and on the path with more of them is the
    same; the path it uses is relative; and when it returns, the regular
    file stands at the names of the path below the working directory, and
    no entry outside the working directory has changed. *)
Theorem save_buf_strips_leading_slashes path buf size mode time fs :
  save_buf path buf size mode time fs =
    save_buf (drop_slashes path) buf size mode time fs ∧
  (∀ k, save_buf (replicate k slash ++ path) buf size mode time fs =
        save_buf path buf size mode time fs) ∧
  is_slash (str_head (drop_slashes path)) = false ∧
  ∀ fs', save_buf path buf size mode time fs = Done tt fs' →
    (∃ st, fs_nodes fs' !! (fs_cwd fs ++ components (drop_slashes path)) = Some st ∧
           st_type st = S_IFREG) ∧
    (∀ loc, ¬ fs_cwd fs `prefix_of` loc →
            fs_nodes fs' !! loc = fs_nodes fs !! loc).
Proof.
  split_and!.
  - by rewrite save_buf_drop_slashes.
  - intros k. rewrite <- (save_buf_drop_slashes (replicate k slash ++ path)).
    rewrite drop_slashes_replicate. by rewrite save_buf_drop_slashes.
  - by destruct (drop_slashes_spec path) as (k & _ & Hh).
  - intros fs' Hdone.
    apply save_buf_Done in Hdone as (n & _ & _ & _ & _ & Hfile & _ & Hfr & _).
    split.
    + rewrite components_drop_slashes. eauto.
    + intros loc Hloc. apply Hfr. intros k _ ->. apply Hloc. by apply prefix_app_r.
Qed.

Lemma save_buf_strips_leading_slashes_witness :
  ∃ fs', save_buf (str "/etc/passwd") (str "root") 4 420 99 ex_fs = Done tt fs' ∧
         (∃ st, fs_nodes fs' !! [str "root"; str "etc"; str "passwd"] = Some st ∧
                st_type st = S_IFREG) ∧
         fs_nodes fs' !! [str "etc"; str "passwd"] = None.
Proof.
  destruct (observe_done (save_buf (str "/etc/passwd") (str "root") 4 420 99 ex_fs)
              (λ _ _, true)) as ([] & fs' & Hrun & _); [vm_compute; reflexivity|].
  exists fs'. split; [exact Hrun|].
  destruct (save_buf_strips_leading_slashes (str "/etc/passwd") (str "root")
              4 420 99 ex_fs) as (_ & _ & _ & Hdone).
  destruct (Hdone fs' Hrun) as [Hfile Hframe]. split; [exact Hfile|].
  rewrite Hframe; [vm_compute; reflexivity|].
  intros [l Hl]. discriminate Hl.
Defined.

Lemma process_mem_loop_cwd fuel : ∀ mem size fs fs',
  process_mem_loop fuel mem size fs = Done tt fs' → fs_cwd fs' = fs_cwd fs.
Proof.
  induction fuel as [|fuel IH]; intros mem size fs fs'; [done|]. simpl.
  destruct (0 <? size).
  - rewrite bind_eq.
    destruct (process_buf mem size fs) as [n fs1|e fs1| |] eqn:Hb; try done.
    intros Hl. apply IH in Hl. rewrite Hl.
    apply process_buf_Done in Hb as (r & _ & _ & _ & _ & Hs).
    by apply save_buf_Done in Hs as (? & _ & _ & _ & _ & _ & _ & _ & _ & -> & _).
  - rewrite assert_eq. destruct (size =? 0); [|done]. by intros [= <-].
Qed.

(** C9. When the directory creation of a record returns, the working
    directory is the one it started in, and every level of the parent
    path is a directory inside the level before it; so [save_buf],
    [process_buf] and the whole loop of [process_mem] return in the
    working directory they were started in, and every record is resolved
    from the same directory. *)
Theorem mkdir_p_restores_cwd :
  (∀ path mode fs fs',
     mkdir_p_fn path mode fs = Done tt fs' →
     fs_cwd fs' = fs_cwd fs ∧
     ∀ k, (k ≤ length (components (dirname path)))%nat →
          is_dir (fs_nodes fs')
            (fs_cwd fs ++ take k (components (dirname path))) = true) ∧
  (∀ path buf size mode time fs fs',
     save_buf path buf size mode time fs = Done tt fs' →
     fs_cwd fs' = fs_cwd fs) ∧
  (∀ buf count fs n fs',
     process_buf buf count fs = Done n fs' → fs_cwd fs' = fs_cwd fs) ∧
  (∀ mem size fs fs',
     process_mem mem size fs = Done tt fs' → fs_cwd fs' = fs_cwd fs).
Proof.
  split_and!.
  - intros path mode fs fs'. unfold mkdir_p_fn, _mkdir_p.
    set (d := dirname path).
    pose proof (_mkdir_p_rec_spec (S (length d)) d mode fs ltac:(lia)) as Hm.
    intros Hrun. rewrite Hrun in Hm. simpl in Hm.
    by destruct Hm as (_ & _ & _ & Hcwd & _ & _ & Hdirs & _).
  - intros path buf size mode time fs fs' Hs.
    by apply save_buf_Done in Hs as (? & _ & _ & _ & _ & _ & _ & _ & _ & -> & _).
  - intros buf count fs n fs' Hb.
    apply process_buf_Done in Hb as (r & _ & _ & _ & _ & Hs).
    by apply save_buf_Done in Hs as (? & _ & _ & _ & _ & _ & _ & _ & _ & -> & _).
  - intros mem size fs fs'. apply process_mem_loop_cwd.
Qed.

Lemma mkdir_p_restores_cwd_witness :
  ∃ fs', mkdir_p_fn (str "home/bin/prog") ACCESSPERMS ex_fs = Done tt fs' ∧
         fs_cwd fs' = [str "root"] ∧
         is_dir (fs_nodes fs') [str "root"; str "home"; str "bin"] = true.
Proof.
  destruct (observe_done (mkdir_p_fn (str "home/bin/prog") ACCESSPERMS ex_fs)
              (λ _ _, true)) as ([] & fs' & Hrun & _); [vm_compute; reflexivity|].
  exists fs'. split; [exact Hrun|].
  destruct mkdir_p_restores_cwd as (Hm & _).
  destruct (Hm _ _ _ _ Hrun) as [Hcwd Hdirs]. split; [exact Hcwd|].
  exact (Hdirs 2%nat ltac:(vm_compute; lia)).
Defined.

(** C6, the code at the failing input. The record [ex_prog] declares
    a size of 3 and carries the payload abc. On a device with room for two
    bytes [process_buf] returns 259, as it does for a complete extraction:
    the record counts as materialized, and the file holds 2 of its 3
    bytes. The results of [fwrite], [fclose], [chmod] and [utime] are not
    looked at. *)
Theorem materialized_file_cut_short :
  decode ex_prog = Some ex_prog_pt ∧
  pt_size ex_prog_pt = 3 ∧
  take 3 (payload ex_prog) = str "abc" ∧
  ∃ fs' st,
    process_buf ex_prog (Z.of_nat (length ex_prog)) ex_fs_full = Done 259 fs' ∧
    fs_nodes fs' !! [str "root"; str "home"; str "bin"; str "prog"] = Some st ∧
    st_type st = S_IFREG ∧ st_data st = str "ab".
Proof.
  split_and!; [vm_compute; reflexivity|reflexivity|vm_compute; reflexivity|].
  destruct (observe_done
              (process_buf ex_prog (Z.of_nat (length ex_prog)) ex_fs_full)
              (λ n fs', bool_decide
                 (n = 259 ∧
                  fs_nodes fs' !! [str "root"; str "home"; str "bin"; str "prog"] =
                    Some (Inode S_IFREG (str "ab") 493 1234 1234))))
    as (n & fs' & Hrun & Hn); [vm_compute; reflexivity|].
  apply bool_decide_eq_true in Hn as [-> Hfile].
  exists fs', (Inode S_IFREG (str "ab") 493 1234 1234).
  split; [exact Hrun|]. split; [exact Hfile|]. split; reflexivity.
Qed.

Lemma _mkdir_proper c mode fs :
  dir_name c → is_dir (fs_nodes fs) (fs_cwd fs) = true →
  _mkdir c mode fs =
  match fs_nodes fs !! (fs_cwd fs ++ [c]) with
  | Some st => if S_ISDIR st then Done tt fs else Abort assert_isdir fs
  | None =>
      if fs_free_inodes fs <=? 0 then Abort assert_mkdir fs
      else Done tt
             (set_free_inodes (fs_free_inodes fs - 1)
                (set_nodes
                   (<[fs_cwd fs ++ [c] :=
                        Inode S_IFDIR [] (Z.ldiff (Z.land mode ACCESSPERMS) (fs_umask fs))
                          (fs_clock fs) (fs_clock fs)]> (fs_nodes fs)) fs))
  end.
Proof.
  intros [Hp Hnul] Hcd. pose proof Hp as (Hne & Hn & Hdot & Hdd & Hlen).
  unfold _mkdir. rewrite !bind_eq, !assert_eq.
  rewrite bool_decide_eq_false_2 by done. simpl.
  rewrite !bind_eq, !assert_eq.
  rewrite bool_decide_eq_false_2.
  2:{ intros Hs. apply Hn. destruct c as [|a c]; [done|]. simpl in Hs. subst a. left. }
  simpl. rewrite !bind_eq, !assert_eq.
  rewrite bool_decide_eq_false_2 by done. simpl.
  rewrite !bind_eq, !assert_eq.
  rewrite bool_decide_eq_false_2 by done. simpl.
  rewrite bind_eq. unfold stat, sys_stat.
  rewrite resolve_name by done. rewrite walk_name by done.
  rewrite trailing_slash_not_slash by done. simpl.
  destruct (fs_nodes fs !! (fs_cwd fs ++ [c])) as [st|] eqn:Hst.
  - rewrite assert_eq. by destruct (S_ISDIR st).
  - rewrite bind_eq. unfold mkdir, call, sys_mkdir.
    rewrite resolve_name by done. rewrite walk_name by done. rewrite Hst.
    rewrite removelast_snoc, Hcd. simpl.
    by destruct (fs_free_inodes fs <=? 0).
Qed.

Lemma set_cwd_id fs : set_cwd (fs_cwd fs) fs = fs.
Proof. by destruct fs. Qed.

Lemma cut_slash_nonempty p h s :
  cut_slash p = (h, s) → p ≠ [] → is_slash (str_head p) = false → h ≠ [].
Proof.
  destruct p as [|c p]; [done|]. simpl. intros H _ Hc. rewrite Hc in H.
  destruct (cut_slash p). by injection H as <- _.
Qed.

Lemma _mkdir_p_conflict fuel : ∀ path mode fs k st,
  (length path < fuel)%nat → is_slash (str_head path) = false →
  Forall dir_name (take (S k) (components path)) →
  (k < length (components path))%nat →
  (∀ j, (j ≤ k)%nat →
        is_dir (fs_nodes fs) (fs_cwd fs ++ take j (components path)) = true) →
  fs_nodes fs !! (fs_cwd fs ++ take (S k) (components path)) = Some st →
  S_ISDIR st = false →
  _mkdir_p_rec fuel path mode fs =
  Abort assert_isdir (set_cwd (fs_cwd fs ++ take k (components path)) fs).
Proof.
  induction fuel as [|fuel IH]; intros path mode fs k st Hlen Hh Hp Hk Hdirs Hst Hs;
    [lia|].
  simpl. destruct (cut_slash path) as [h s] eqn:Hcut.
  assert (path ≠ []) as Hpne by (intros ->; simpl in Hk; lia).
  pose proof (cut_slash_nonempty _ _ _ Hcut Hpne Hh) as Hne.
  pose proof (Hdirs 0%nat ltac:(lia)) as Hcd. rewrite take_0, app_nil_r in Hcd.
  destruct s as [s|].
  - pose proof (components_cut_Some _ _ _ Hcut Hne) as Hcs. rewrite Hcs in *.
    simpl in Hp. apply Forall_cons in Hp as [Hph Hp].
    rewrite bind_eq, _mkdir_proper by done.
    destruct k as [|k].
    + rewrite firstn_cons, take_0 in Hst. rewrite Hst, Hs.
      by rewrite take_0, app_nil_r, set_cwd_id.
    + pose proof (Hdirs 1%nat ltac:(lia)) as Hd1. simpl in Hd1.
      rewrite take_0 in Hd1. unfold is_dir in Hd1.
      destruct (fs_nodes fs !! (fs_cwd fs ++ [h])) as [sth|] eqn:Hsth; [|done].
      rewrite Hd1. rewrite bind_eq. unfold open_rdonly. rewrite open_dot by done.
      rewrite bind_eq, assert_eq. simpl. rewrite bind_eq. unfold _chdir.
      rewrite bind_eq. unfold chdir, call.
      rewrite chdir_name; [|apply Hph|done|by unfold is_dir; rewrite Hsth].
      rewrite assert_eq. simpl. rewrite bind_eq.
      apply cut_slash_Some in Hcut as Hshape. destruct Hshape as (i & Hpath & _ & Hhs).
      rewrite (IH s mode (set_cwd (fs_cwd fs ++ [h]) fs) k st).
      * simpl. by rewrite <- app_assoc.
      * pose proof (cut_slash_shorter _ _ _ Hcut). lia.
      * done.
      * done.
      * simpl in Hk. lia.
      * intros j Hj. simpl. rewrite <- app_assoc. apply (Hdirs (S j)). lia.
      * simpl. rewrite <- app_assoc. exact Hst.
      * done.
  - pose proof (components_cut_None _ _ Hcut Hne) as Hcs. rewrite Hcs in *.
    simpl in Hk. assert (k = 0%nat) as -> by lia.
    simpl in Hp. apply Forall_cons in Hp as [Hph Hp].
    rewrite bind_eq, _mkdir_proper by done.
    rewrite firstn_cons, take_0 in Hst. rewrite Hst, Hs.
    by rewrite take_0, app_nil_r, set_cwd_id.
Qed.

(** C4. When the first [k] parent names of the path are existing
    directories and the next one exists as something else, [save_buf]
    aborts on the assertion of line 77 with the tree exactly as it was
    (only the working directory of the dying process has moved to the
    level reached). A name that exists as a directory is accepted by
    [_mkdir] without any change to the state. *)
Theorem directory_conflict_aborts :
  (∀ path buf size mode time fs k st,
     let cs := components (dirname (drop_slashes path)) in
     Forall dir_name (take (S k) cs) →
     (k < length cs)%nat →
     (∀ j, (j ≤ k)%nat → is_dir (fs_nodes fs) (fs_cwd fs ++ take j cs) = true) →
     fs_nodes fs !! (fs_cwd fs ++ take (S k) cs) = Some st →
     S_ISDIR st = false →
     save_buf path buf size mode time fs =
     Abort assert_isdir (set_cwd (fs_cwd fs ++ take k cs) fs)) ∧
  (∀ c mode fs,
     dir_name c →
     is_dir (fs_nodes fs) (fs_cwd fs) = true →
     is_dir (fs_nodes fs) (fs_cwd fs ++ [c]) = true →
     _mkdir c mode fs = Done tt fs).
Proof.
  split.
  - intros path buf size mode time fs k st cs Hp Hk Hdirs Hst Hs.
    unfold save_buf, mkdir_p_fn, _mkdir_p. rewrite bind_eq.
    set (p := drop_slashes path) in *. set (d := dirname p) in *.
    assert (is_slash (str_head d) = false) as Hh.
    { unfold d. destruct (dirname_spec p)
        as [Hdot|[[Hsl _]|(i & name & j & Hshape & _ & _ & Hdne & _)]].
      - by rewrite Hdot.
      - exfalso. unfold cs, d in Hk. rewrite Hsl in Hk. simpl in Hk. lia.
      - rewrite <- (str_head_app (dirname p)
                      (slash :: replicate i slash ++ name ++ replicate j slash) Hdne).
        rewrite <- Hshape. unfold p.
        by destruct (drop_slashes_spec path) as (? & _ & ?). }
    rewrite (_mkdir_p_conflict (S (length d)) d ACCESSPERMS fs k st); try done. lia.
  - intros c mode fs Hp Hcd Hd. rewrite _mkdir_proper by done.
    unfold is_dir in Hd. destruct (fs_nodes fs !! (fs_cwd fs ++ [c])); [|done].
    by rewrite Hd.
Qed.

Lemma dir_name_intro c :
  c ≠ [] → bool_decide (slash ∈ c) = false → c ≠ str "." → c ≠ str ".." →
  (length c ≤ NAME_MAX)%nat → str_head c ≠ NUL → dir_name c.
Proof.
  intros ? Hs ? ? ? ?. split; [|done]. split_and!; try done.
  by apply bool_decide_eq_false in Hs.
Qed.

Lemma directory_conflict_aborts_witness :
  save_buf (str "a/b/file.bin") (str "z") 1 420 99 ex_fs_conflict =
    Abort assert_isdir ex_fs_conflict ∧
  fs_nodes ex_fs_conflict !! [str "root"; str "a"] =
    Some (Inode S_IFREG (str "keep") 420 7 7) ∧
  _mkdir (str "root") ACCESSPERMS (set_cwd [] ex_fs) = Done tt (set_cwd [] ex_fs).
Proof.
  destruct directory_conflict_aborts as [Hconflict Hdir].
  assert (dir_name (str "a")) as Ha.
  { apply dir_name_intro; try discriminate; [reflexivity|vm_compute; lia]. }
  assert (dir_name (str "root")) as Hroot.
  { apply dir_name_intro; try discriminate; [reflexivity|vm_compute; lia]. }
  assert (components (dirname (drop_slashes (str "a/b/file.bin"))) =
          [str "a"; str "b"]) as Hcs by (vm_compute; reflexivity).
  split; [|split; [reflexivity|]].
  - pose proof (Hconflict (str "a/b/file.bin") (str "z") 1 420 99 ex_fs_conflict
                  0%nat (Inode S_IFREG (str "keep") 420 7 7)) as H.
    cbv zeta in H. rewrite Hcs in H. etrans.
    + apply H.
      * constructor; [exact Ha|constructor].
      * simpl. lia.
      * intros j Hj. assert (j = 0%nat) as -> by lia. reflexivity.
      * reflexivity.
      * reflexivity.
    + reflexivity.
  - apply Hdir; [exact Hroot|reflexivity|reflexivity].
Defined.

Lemma process_mem_eq mem size fs :
  process_mem mem size fs =
  if 0 <? size then
    match process_buf mem size fs with
    | Done n fs' =>
        process_mem_loop (Z.to_nat size) (drop (Z.to_nat n) mem)
          (to_size_t (size - n)) fs'
    | Abort e fs' => Abort e fs'
    | Undefined => Undefined
    | Diverge => Diverge
    end
  else assert (size =? 0) assert_exhausted fs.
Proof. unfold process_mem. cbn [process_mem_loop]. by destruct (0 <? size). Qed.

(** C1, amended. For a buffer that fits a [size_t] and is a back-to-back
    sequence of well-formed records, the lengths 256 + size of the records
    add up to the length of the buffer; [process_mem] never fails a
    framing assertion and never exhausts its loop bound; when it returns
    it has printed exactly the records of the framing, in order; and when
    it aborts, it does so inside the materialization of a record whose
    header it has printed. *)
Theorem process_mem_framing buf rs fs :
  Z.of_nat (length buf) < 2 ^ 64 →
  framing buf rs →
  foldr (λ r s, total_length r + s) 0 rs = Z.of_nat (length buf) ∧
  match process_mem buf (Z.of_nat (length buf)) fs with
  | Done _ fs' => fs_stdout fs' = fs_stdout fs ++ concat (map record_log rs)
  | Abort e fs' =>
      materialize_failure e = true ∧
      ∃ k, (k < length rs)%nat ∧
           fs_stdout fs' =
           fs_stdout fs ++ concat (map record_log (take (S k) rs))
  | Undefined => True
  | Diverge => False
  end.
Proof.
  intros Hmax Hfr. split; [by apply framing_total|].
  unfold process_mem. rewrite Nat2Z.id.
  apply process_mem_loop_spec; [done|lia|done].
Qed.

Lemma process_mem_framing_witness :
  Z.of_nat (length ex_archive) < 2 ^ 64 ∧
  framing ex_archive [ex_prog_pt; ex_conf_pt] ∧
  total_length ex_prog_pt + total_length ex_conf_pt = Z.of_nat (length ex_archive) ∧
  ∃ fs', process_mem ex_archive (Z.of_nat (length ex_archive)) ex_fs = Done tt fs' ∧
         fs_stdout fs' = record_log ex_prog_pt ++ record_log ex_conf_pt.
Proof.
  assert (Z.of_nat (length ex_archive) < 2 ^ 64) as Hmax by (vm_compute; reflexivity).
  assert (framing ex_archive [ex_prog_pt; ex_conf_pt]) as Hfr
    by (repeat framing_step).
  destruct (process_mem_framing ex_archive _ ex_fs Hmax Hfr) as [Hsum Hrun].
  split; [exact Hmax|]. split; [exact Hfr|]. split; [vm_compute; reflexivity|].
  destruct (observe_done (process_mem ex_archive (Z.of_nat (length ex_archive)) ex_fs)
              (λ _ _, true)) as ([] & fs' & E & _); [vm_compute; reflexivity|].
  rewrite E in Hrun. exists fs'. split; [exact E|]. exact Hrun.
Defined.

(** C1, counterexample. A buffer made of one well-formed record whose
    size fits, and on which [process_mem] never reaches the end of the
    buffer, whatever the filesystem: the record's path is a bare file
    name. *)
Lemma well_formed_archive_not_consumed :
  Z.of_nat (length ex_bare) < 2 ^ 64 ∧
  framing ex_bare [ex_bare_pt] ∧
  ∀ fs, ∃ fs', process_mem ex_bare (Z.of_nat (length ex_bare)) fs =
               Abort assert_path_not_dot fs'.
Proof.
  split; [vm_compute; reflexivity|]. split; [repeat framing_step|].
  intros fs. rewrite process_mem_eq.
  replace (Z.of_nat (length ex_bare)) with 258 by (vm_compute; reflexivity).
  change (0 <? 258) with true. cbv iota.
  rewrite process_buf_eq.
  replace (decode ex_bare) with (Some ex_bare_pt) by (vm_compute; reflexivity).
  change (Z.of_nat sizeof_fwpart <=? 258) with true. cbv iota zeta.
  change (to_size_t (total_length ex_bare_pt) <=? 258) with true. cbv iota.
  rewrite save_buf_bare; [eauto|]. by_decide.
Qed.

(** The payload check of [process_buf] is on the wrapped sum: a size of
    at least 2^64 - 256 passes it. *)
Lemma process_buf_wrapped buf count fs r :
  decode buf = Some r →
  Z.of_nat sizeof_fwpart ≤ count < 2 ^ 64 →
  2 ^ 64 - Z.of_nat sizeof_fwpart ≤ pt_size r →
  count < total_length r ∧
  ∀ e fs', process_buf buf count fs = Abort e fs' →
           materialize_failure e = true.
Proof.
  intros Hd Hc Hbig. pose proof (decode_size_range _ _ Hd) as [_ Hmax].
  unfold ULONG_MAX in Hmax. rewrite sizeof_fwpart_eq in *.
  assert (to_size_t (total_length r) = pt_size r - (2 ^ 64 - 256)) as Hw.
  { unfold to_size_t, total_length. rewrite sizeof_fwpart_eq.
    replace (Z.of_nat 256 + pt_size r)
      with (pt_size r - (2 ^ 64 - 256) + 1 * 2 ^ 64) by lia.
    rewrite Z.mod_add by lia. apply Z.mod_small. lia. }
  split.
  - unfold total_length. rewrite sizeof_fwpart_eq. lia.
  - intros e fs'. rewrite process_buf_eq, Hd. rewrite sizeof_fwpart_eq.
    destruct (Z.of_nat 256 <=? count) eqn:H1; [|apply Z.leb_gt in H1; lia].
    cbv zeta. rewrite Hw.
    destruct (pt_size r - (2 ^ 64 - 256) <=? count) eqn:H2;
      [|apply Z.leb_gt in H2; lia].
    pose proof (save_buf_not_Done (pt_path r) (payload buf) (pt_size r)
                  (pt_mode r) (pt_time r)
                  (set_stdout (fs_stdout fs ++ record_log r) fs)) as Hs.
    destruct (save_buf _ _ _ _ _ _) as [[] fs1|e1 fs1| |]; try done.
    intros [= <- <-]. apply Hs.
Qed.

(** C2, the code at the failing input. A buffer of 256 bytes whose size
    field reads "-1": [strtoul] gives 2^64 - 1, so header and payload
    exceed the bytes remaining, yet the sum wraps around to 255 and the
    assertion of line 164 passes: no run aborts on it, and on the example
    filesystem [fwrite] is asked for bytes that are not there. *)
Theorem truncated_payload_not_detected :
  length ex_wrap = 256%nat ∧
  decode ex_wrap = Some ex_wrap_pt ∧
  Z.of_nat (length ex_wrap) < total_length ex_wrap_pt ∧
  (∀ fs e fs', process_buf ex_wrap 256 fs = Abort e fs' →
               e ≠ assert_payload ∧ e ≠ assert_header) ∧
  process_buf ex_wrap 256 ex_fs = Undefined.
Proof.
  assert (decode ex_wrap = Some ex_wrap_pt) as Hd by (vm_compute; reflexivity).
  split; [reflexivity|]. split; [exact Hd|]. split; [vm_compute; reflexivity|].
  split; [|vm_compute; reflexivity].
  intros fs e fs' Hrun.
  destruct (process_buf_wrapped ex_wrap 256 fs ex_wrap_pt Hd) as [_ Hm].
  - rewrite sizeof_fwpart_eq. lia.
  - rewrite sizeof_fwpart_eq. simpl. lia.
  - apply Hm in Hrun. by destruct e.
Qed.

Lemma cstr_app l m : NUL ∉ l → cstr (l ++ m) = (l ++.) <$> cstr m.
Proof.
  induction l as [|c l IH]; intros Hn.
  - simpl. by destruct (cstr m).
  - apply not_elem_of_cons in Hn as [Hc Hl]. simpl.
    rewrite decide_False by congruence. rewrite IH by done.
    by destruct (cstr m).
Qed.

(** A path field without NUL is read on into the version field. *)
Lemma path_read_past_field buf :
  NUL ∉ take (width f_path) (member f_path buf) →
  cstr (member f_path buf) =
  (take (width f_path) (member f_path buf) ++.) <$> cstr (member f_vers buf).
Proof.
  intros Hn. rewrite <- (take_drop (width f_path) (member f_path buf)) at 1.
  rewrite cstr_app by done. unfold member. by rewrite drop_drop.
Qed.

(** C7, the code at the failing input. A record whose path field holds
    60 bytes and no NUL: the path that is decoded, printed and extracted
    runs on into the version field and is 63 bytes long. *)
Theorem path_field_not_bounded :
  take (width f_path) (member f_path ex_unterminated) = str ex_long_path ∧
  decode ex_unterminated = Some ex_unterminated_pt ∧
  (width f_path < length (pt_path ex_unterminated_pt))%nat ∧
  ∃ fs', process_buf ex_unterminated 257 ex_fs = Done 257 fs' ∧
         fs_nodes fs' !! [str "root"; str "a"; drop 2 (str ex_long_path) ++ str "1.0"] =
           Some (Inode S_IFREG (str "z") 420 99 99).
Proof.
  split; [vm_compute; reflexivity|]. split; [vm_compute; reflexivity|].
  split; [vm_compute; lia|].
  destruct (observe_done (process_buf ex_unterminated 257 ex_fs)
              (λ n fs', bool_decide
                 (n = 257 ∧
                  fs_nodes fs' !! [str "root"; str "a";
                                   drop 2 (str ex_long_path) ++ str "1.0"] =
                    Some (Inode S_IFREG (str "z") 420 99 99))))
    as (n & fs' & Hrun & Hn); [vm_compute; reflexivity|].
  apply bool_decide_eq_true in Hn as [-> Hnode].
  exists fs'. split; [exact Hrun|exact Hnode].
Qed.

(** C8, the code at the failing input. On a device with room for two
    bytes, the three payload bytes of the first record are cut to two and
    the second file stays empty, yet [process_mem] returns normally: the
    short write is not noticed. A directory or a file that cannot be
    created (no inode left) does abort the run. *)
Theorem short_write_not_detected :
  (∃ fs', process_mem ex_archive (Z.of_nat (length ex_archive)) ex_fs_full =
            Done tt fs' ∧
          fs_nodes fs' !! [str "root"; str "home"; str "bin"; str "prog"] =
            Some (Inode S_IFREG (str "ab") 493 1234 1234) ∧
          fs_nodes fs' !! [str "root"; str "home"; str "etc"; str "conf"] =
            Some (Inode S_IFREG [] 420 99 99)) ∧
  save_buf (str "a/b") (str "z") 1 420 99 (set_free_inodes 0 ex_fs) =
    Abort assert_mkdir (set_free_inodes 0 ex_fs) ∧
  (∃ fs', save_buf (str "a/b") (str "z") 1 420 99 (set_free_inodes 1 ex_fs) =
            Abort assert_fopen fs').
Proof.
  split_and!.
  - destruct (observe_done
                (process_mem ex_archive (Z.of_nat (length ex_archive)) ex_fs_full)
                (λ _ fs', bool_decide
                   (fs_nodes fs' !! [str "root"; str "home"; str "bin"; str "prog"] =
                      Some (Inode S_IFREG (str "ab") 493 1234 1234) ∧
                    fs_nodes fs' !! [str "root"; str "home"; str "etc"; str "conf"] =
                      Some (Inode S_IFREG [] 420 99 99))))
      as ([] & fs' & Hrun & Hn); [vm_compute; reflexivity|].
    apply bool_decide_eq_true in Hn as [Hprog Hconf].
    exists fs'. split; [exact Hrun|]. split; [exact Hprog|exact Hconf].
  - vm_compute. reflexivity.
  - eexists. vm_compute. reflexivity.
Qed.

Lemma strtoul_digits_run base ds : ∀ acc c rest,
  Forall (λ x, is_digit base x = true) ds →
  is_digit base c = false →
  strtoul_digits base acc (ds ++ c :: rest) =
  Some (fold_left (λ a x, a * base + default 0 (digit_val x)) ds acc).
Proof.
  induction ds as [|d ds IH]; intros acc c rest Hds Hc; simpl.
  - unfold is_digit in Hc. destruct (digit_val c); [|done]. by rewrite Hc.
  - apply Forall_cons in Hds as [Hd Hds]. unfold is_digit in Hd.
    destruct (digit_val d) as [v|]; [|done]. rewrite Hd. simpl. by apply IH.
Qed.

Lemma digit_not_space base d :
  is_digit base d = true → isspace d = false ∧ d ≠ "-"%char ∧ d ≠ "+"%char.
Proof.
  unfold is_digit. destruct d as [[] [] [] [] [] [] [] []]; try done.
Qed.

Lemma strtoul_base0_decimal d m :
  d ≠ "0"%char → strtoul_base0 (d :: m) = strtoul_digits 10 0 (d :: m).
Proof. destruct d as [[] [] [] [] [] [] [] []]; try done. Qed.

Lemma strtoul_unsigned c m v :
  isspace c = false → c ≠ "-"%char → c ≠ "+"%char →
  strtoul_base0 (c :: m) = Some v → strtoul (c :: m) = Some (saturate v).
Proof.
  intros Hs Hm Hp Hv. unfold strtoul. simpl. rewrite Hs.
  rewrite !decide_False by done. by rewrite Hv.
Qed.

(** [process_buf] in terms of the reads of its seven fields. *)
Lemma process_buf_reads buf count fs :
  process_buf buf count fs =
  if Z.of_nat sizeof_fwpart <=? count then
    match strtoul (member f_size buf), strtoul (member f_mode buf),
          strtoul (member f_time buf), strtoul (member f_rsvd buf),
          cstr (member f_name buf), cstr (member f_path buf),
          cstr (member f_vers buf) with
    | Some size, Some mode, Some time, Some rsvd, Some name, Some path, Some vers =>
        let fs1 := set_stdout
                     (fs_stdout fs ++
                      [LName name; LSize size; LPath path; LMode (to_mode_t mode);
                       LTime (to_time_t time); LRsvd rsvd; LVers vers; LBlank]) fs in
        if to_size_t (Z.of_nat sizeof_fwpart + size) <=? count then
          match save_buf path (payload buf) size (to_mode_t mode) (to_time_t time)
                  fs1 with
          | Done _ fs' => Done (to_size_t (Z.of_nat sizeof_fwpart + size)) fs'
          | Abort e fs' => Abort e fs'
          | Undefined => Undefined
          | Diverge => Diverge
          end
        else Abort assert_payload fs1
    | _, _, _, _, _, _, _ => Undefined
    end
  else Abort assert_header fs.
Proof.
  rewrite process_buf_eq. destruct (_ <=? _); [|done]. unfold decode.
  destruct (strtoul (member f_size buf)) as [size|]; [|done].
  destruct (strtoul (member f_mode buf)) as [mode|]; [|done].
  destruct (strtoul (member f_time buf)) as [time|]; [|done].
  destruct (strtoul (member f_rsvd buf)) as [rsvd|]; [|done].
  destruct (cstr (member f_name buf)) as [name|]; [|done].
  destruct (cstr (member f_path buf)) as [path|]; [|done].
  destruct (cstr (member f_vers buf)) as [vers|]; [|done].
  reflexivity.
Qed.

(** C5. The four numeric fields are what [strtoul] with base 0 reads at
    the start of the field: whenever [process_buf] returns, the four
    calls have returned, the length it returns is 256 plus the size read,
    the lines it has printed show the values read, and the file has been
    made from the size, mode and time read; and whenever the reads succeed
    and the file is made, [process_buf] returns so. After "0x" or "0X"
    the hexadecimal digits count, after another leading "0" the octal
    ones, otherwise the decimal ones; the scan stops at the first byte that
    is not such a digit, and a value above [ULONG_MAX] is replaced by it.
    For the mode field "0755" [process_buf] prints 493, and for the size
    field "0x2A" it prints 42 and returns 256 + 42. *)
Theorem strtoul_base0_semantics :
  (∀ buf count fs n fs',
     process_buf buf count fs = Done n fs' →
     ∃ size mode time rsvd name path vers,
       strtoul (member f_size buf) = Some size ∧
       strtoul (member f_mode buf) = Some mode ∧
       strtoul (member f_time buf) = Some time ∧
       strtoul (member f_rsvd buf) = Some rsvd ∧
       n = to_size_t (Z.of_nat sizeof_fwpart + size) ∧
       fs_stdout fs' =
         fs_stdout fs ++
         [LName name; LSize size; LPath path; LMode (to_mode_t mode);
          LTime (to_time_t time); LRsvd rsvd; LVers vers; LBlank] ∧
       save_buf path (payload buf) size (to_mode_t mode) (to_time_t time)
         (set_stdout
            (fs_stdout fs ++
             [LName name; LSize size; LPath path; LMode (to_mode_t mode);
              LTime (to_time_t time); LRsvd rsvd; LVers vers; LBlank]) fs) =
       Done tt fs') ∧
  (∀ buf count fs size mode time rsvd name path vers fs',
     strtoul (member f_size buf) = Some size →
     strtoul (member f_mode buf) = Some mode →
     strtoul (member f_time buf) = Some time →
     strtoul (member f_rsvd buf) = Some rsvd →
     cstr (member f_name buf) = Some name →
     cstr (member f_path buf) = Some path →
     cstr (member f_vers buf) = Some vers →
     Z.of_nat sizeof_fwpart ≤ count →
     to_size_t (Z.of_nat sizeof_fwpart + size) ≤ count →
     save_buf path (payload buf) size (to_mode_t mode) (to_time_t time)
       (set_stdout
          (fs_stdout fs ++
           [LName name; LSize size; LPath path; LMode (to_mode_t mode);
            LTime (to_time_t time); LRsvd rsvd; LVers vers; LBlank]) fs) =
     Done tt fs' →
     process_buf buf count fs =
     Done (to_size_t (Z.of_nat sizeof_fwpart + size)) fs') ∧
  (∀ x ds c rest,
     x = "x"%char ∨ x = "X"%char →
     Forall (λ d, is_digit 16 d = true) ds → is_digit 16 c = false →
     strtoul ("0"%char :: x :: ds ++ c :: rest) =
     Some (saturate (digits_value 16 ds))) ∧
  (∀ ds c rest,
     Forall (λ d, is_digit 8 d = true) ds → is_digit 8 c = false →
     (ds = [] → c ≠ "x"%char ∧ c ≠ "X"%char) →
     strtoul ("0"%char :: ds ++ c :: rest) =
     Some (saturate (digits_value 8 ds))) ∧
  (∀ d ds c rest,
     is_digit 10 d = true → d ≠ "0"%char →
     Forall (λ d, is_digit 10 d = true) ds → is_digit 10 c = false →
     strtoul (d :: ds ++ c :: rest) =
     Some (saturate (digits_value 10 (d :: ds)))) ∧
  (∃ fs', process_buf ex_prog (Z.of_nat (length ex_prog)) ex_fs = Done 259 fs' ∧
          LMode 493 ∈ fs_stdout fs') ∧
  (∃ fs', process_buf ex_hex (Z.of_nat (length ex_hex)) ex_fs = Done 298 fs' ∧
          LSize 42 ∈ fs_stdout fs').
Proof.
  assert (∀ buf count fs n fs',
     process_buf buf count fs = Done n fs' →
     ∃ size mode time rsvd name path vers,
       strtoul (member f_size buf) = Some size ∧
       strtoul (member f_mode buf) = Some mode ∧
       strtoul (member f_time buf) = Some time ∧
       strtoul (member f_rsvd buf) = Some rsvd ∧
       n = to_size_t (Z.of_nat sizeof_fwpart + size) ∧
       fs_stdout fs' =
         fs_stdout fs ++
         [LName name; LSize size; LPath path; LMode (to_mode_t mode);
          LTime (to_time_t time); LRsvd rsvd; LVers vers; LBlank] ∧
       save_buf path (payload buf) size (to_mode_t mode) (to_time_t time)
         (set_stdout
            (fs_stdout fs ++
             [LName name; LSize size; LPath path; LMode (to_mode_t mode);
              LTime (to_time_t time); LRsvd rsvd; LVers vers; LBlank]) fs) =
       Done tt fs') as Hdone.
  { intros buf count fs n fs'. rewrite process_buf_reads.
    destruct (_ <=? _); [|done].
    destruct (strtoul (member f_size buf)) as [size|]; [|done].
    destruct (strtoul (member f_mode buf)) as [mode|]; [|done].
    destruct (strtoul (member f_time buf)) as [time|]; [|done].
    destruct (strtoul (member f_rsvd buf)) as [rsvd|]; [|done].
    destruct (cstr (member f_name buf)) as [name|]; [|done].
    destruct (cstr (member f_path buf)) as [path|]; [|done].
    destruct (cstr (member f_vers buf)) as [vers|]; [|done].
    cbv zeta. destruct (_ <=? _); [|done].
    destruct (save_buf _ _ _ _ _ _) as [[] fs1|e fs1| |] eqn:Hs; try done.
    intros [= <- <-]. exists size, mode, time, rsvd, name, path, vers.
    split_and!; try done.
    apply save_buf_Done in Hs as (k & _ & _ & _ & _ & _ & _ & _ & _ & _ & Ho & _).
    exact Ho. }
  split_and!.
  - exact Hdone.
  - intros buf count fs size mode time rsvd name path vers fs'
      H1 H2 H3 H4 H5 H6 H7 Hc Hp Hs.
    rewrite process_buf_reads, H1, H2, H3, H4, H5, H6, H7.
    destruct (Z.of_nat sizeof_fwpart <=? count) eqn:E1;
      [|apply Z.leb_gt in E1; lia].
    cbv zeta.
    destruct (to_size_t (Z.of_nat sizeof_fwpart + size) <=? count) eqn:E2;
      [|apply Z.leb_gt in E2; lia].
    by rewrite Hs.
  - intros x ds c rest Hx Hds Hc. apply strtoul_unsigned; try done.
    unfold strtoul_base0. rewrite decide_True by done.
    by apply strtoul_digits_run.
  - intros ds c rest Hds Hc Hnil. apply strtoul_unsigned; try done.
    assert (strtoul_digits 8 0 ("0"%char :: ds ++ c :: rest) =
            Some (digits_value 8 ds)) as Hrun.
    { change (strtoul_digits 8 0 ("0"%char :: ds ++ c :: rest))
        with (strtoul_digits 8 0 (ds ++ c :: rest)).
      by apply strtoul_digits_run. }
    unfold strtoul_base0. destruct ds as [|d ds].
    + simpl. destruct (Hnil eq_refl) as [H1 H2].
      rewrite decide_False by (intros [?|?]; done). exact Hrun.
    + rewrite <- app_comm_cons. apply Forall_cons in Hds as [Hd _].
      rewrite decide_False; [exact Hrun|].
      intros [->| ->]; done.
  - intros d ds c rest Hd Hd0 Hds Hc.
    destruct (digit_not_space _ _ Hd) as (Hs & Hm & Hp).
    apply strtoul_unsigned; try done.
    rewrite strtoul_base0_decimal by done.
    rewrite app_comm_cons. apply strtoul_digits_run; [|done].
    by constructor.
  - destruct (observe_done (process_buf ex_prog (Z.of_nat (length ex_prog)) ex_fs)
                (λ n _, bool_decide (n = 259))) as (n & fs' & Hrun & Hn);
      [vm_compute; reflexivity|].
    apply bool_decide_eq_true in Hn. subst n.
    exists fs'. split; [exact Hrun|].
    destruct (Hdone _ _ _ _ _ Hrun)
      as (size & mode & time & rsvd & name & path & vers & _ & Hm & _ & _ & _ & Ho & _).
    assert (strtoul (member f_mode ex_prog) = Some 493) as Hv
      by (vm_compute; reflexivity).
    rewrite Hv in Hm. injection Hm as <-. rewrite Ho.
    apply elem_of_app. right. do 3 right. left.
  - destruct (observe_done (process_buf ex_hex (Z.of_nat (length ex_hex)) ex_fs)
                (λ n _, bool_decide (n = 298))) as (n & fs' & Hrun & Hn);
      [vm_compute; reflexivity|].
    apply bool_decide_eq_true in Hn. subst n.
    exists fs'. split; [exact Hrun|].
    destruct (Hdone _ _ _ _ _ Hrun)
      as (size & mode & time & rsvd & name & path & vers & Hsz & _ & _ & _ & _ & Ho & _).
    assert (strtoul (member f_size ex_hex) = Some 42) as Hv
      by (vm_compute; reflexivity).
    rewrite Hv in Hsz. injection Hsz as <-. rewrite Ho.
    apply elem_of_app. right. right. left.
Qed.

Lemma strtoul_base0_semantics_witness :
  strtoul (str "0x2A" ++ NUL :: []) = Some 42 ∧
  strtoul (str "0755" ++ NUL :: []) = Some 493 ∧
  strtoul (str "1234" ++ " "%char :: str "rest") = Some 1234 ∧
  ∃ fs', process_buf ex_hex (Z.of_nat (length ex_hex)) ex_fs = Done 298 fs'.
Proof.
  destruct strtoul_base0_semantics as (_ & Hrun & Hhex & Hoct & Hdec & _).
  split; [|split; [|split]].
  - apply (Hhex "x"%char (str "2A") NUL []).
    + left. reflexivity.
    + repeat constructor.
    + reflexivity.
  - apply (Hoct (str "755") NUL []).
    + repeat constructor.
    + reflexivity.
    + intros H. discriminate H.
  - apply (Hdec "1"%char (str "234") " "%char (str "rest")).
    + reflexivity.
    + discriminate.
    + repeat constructor.
    + reflexivity.
  - destruct (observe_done
                (save_buf (str "d/h") (payload ex_hex) 42 (to_mode_t 493) (to_time_t 0)
                   (set_stdout
                      (fs_stdout ex_fs ++
                       [LName (str "h"); LSize 42; LPath (str "d/h");
                        LMode (to_mode_t 493); LTime (to_time_t 0); LRsvd 0;
                        LVers (str "1.0"); LBlank]) ex_fs))
                (λ _ _, true)) as ([] & fs' & Hs & _); [vm_compute; reflexivity|].
    exists fs'.
    apply (Hrun ex_hex (Z.of_nat (length ex_hex)) ex_fs 42 493 0 0
             (str "h") (str "d/h") (str "1.0") fs');
      [vm_compute; reflexivity ..
      |vm_compute; discriminate|vm_compute; discriminate|exact Hs].
Defined.

(** A record that [process_buf] has accepted and materialized lies
    inside the buffer, and the value returned is its unwrapped length. *)
Lemma process_buf_Done_length buf fs n fs' :
  process_buf buf (Z.of_nat (length buf)) fs = Done n fs' →
  Z.of_nat (length buf) < 2 ^ 64 →
  ∃ r, decode buf = Some r ∧ n = total_length r ∧
       Z.of_nat sizeof_fwpart ≤ n ≤ Z.of_nat (length buf).
Proof.
  intros Hb Hmax.
  apply process_buf_Done in Hb as (r & Hd & -> & Hc & _ & Hs).
  apply save_buf_Done in Hs as (k & _ & _ & Hsz & _).
  pose proof (decode_size_range _ _ Hd) as [H0 _].
  unfold payload in Hsz. rewrite length_drop in Hsz.
  assert (total_length r ≤ Z.of_nat (length buf)) as Hle
    by (unfold total_length; lia).
  exists r. split; [done|]. unfold to_size_t.
  rewrite Z.mod_small by (unfold total_length in *; lia).
  split; [done|]. unfold total_length in *. lia.
Qed.

(** The bound on the loop of the model is never reached. *)
Lemma process_mem_loop_terminates fuel : ∀ mem fs,
  (length mem < fuel)%nat → Z.of_nat (length mem) < 2 ^ 64 →
  process_mem_loop fuel mem (Z.of_nat (length mem)) fs ≠ Diverge.
Proof.
  induction fuel as [|fuel IH]; intros mem fs Hfuel Hmax; [lia|].
  cbn [process_mem_loop]. destruct (0 <? Z.of_nat (length mem)).
  - rewrite bind_eq.
    destruct (process_buf mem (Z.of_nat (length mem)) fs)
      as [n fs1|e fs1| |] eqn:Hb; try done.
    + destruct (process_buf_Done_length _ _ _ _ Hb Hmax) as (r & _ & _ & Hn).
      rewrite sizeof_fwpart_eq in Hn.
      assert (to_size_t (Z.of_nat (length mem) - n) =
              Z.of_nat (length (drop (Z.to_nat n) mem))) as ->.
      { rewrite length_drop. unfold to_size_t. rewrite Z.mod_small; lia. }
      apply IH; rewrite length_drop; lia.
    + rewrite process_buf_eq in Hb.
      destruct (_ <=? _); [|done]. destruct (decode mem) as [r|]; [|done].
      cbv zeta in Hb. destruct (_ <=? _); [|done].
      pose proof (save_buf_not_Done (pt_path r) (payload mem) (pt_size r)
                    (pt_mode r) (pt_time r)
                    (set_stdout (fs_stdout fs ++ record_log r) fs)) as Hs.
      by destruct (save_buf _ _ _ _ _ _).
  - rewrite assert_eq. by destruct (_ =? 0).
Qed.

Lemma process_mem_terminates mem fs :
  Z.of_nat (length mem) < 2 ^ 64 →
  process_mem mem (Z.of_nat (length mem)) fs ≠ Diverge.
Proof.
  intros Hmax. unfold process_mem. rewrite Nat2Z.id.
  apply process_mem_loop_terminates; [lia|done].
Qed.

(** * Further properties of the code *)

(** ** The loop of [process_mem] and what [process_buf] checks *)

(** X1. A buffer shorter than one header is never decoded: for the empty
    buffer [process_mem] returns at once, for 1 to 255 bytes it aborts at
    the header assertion of [process_buf]; the state is left as it was. *)
Theorem process_mem_short_buffer buf fs :
  (length buf < sizeof_fwpart)%nat →
  process_mem buf (Z.of_nat (length buf)) fs =
  if decide (buf = []) then Done tt fs else Abort assert_header fs.
Proof.
  intros Hlen. rewrite process_mem_eq. destruct buf as [|c buf].
  - reflexivity.
  - rewrite decide_False by done.
    destruct (0 <? Z.of_nat (length (c :: buf))) eqn:Hpos;
      [|apply Z.ltb_ge in Hpos; simpl in Hpos; lia].
    rewrite process_buf_eq.
    destruct (Z.of_nat sizeof_fwpart <=? Z.of_nat (length (c :: buf))) eqn:Hc;
      [apply Z.leb_le in Hc; lia|done].
Qed.

Lemma process_mem_short_buffer_witness :
  process_mem (take 100 ex_prog) 100 ex_fs = Abort assert_header ex_fs.
Proof.
  exact (process_mem_short_buffer (take 100 ex_prog) ex_fs
           ltac:(vm_compute; lia)).
Defined.

(** X2. When the header decodes and 256 + size does not wrap around but
    is more than the bytes given, [process_buf] aborts at the payload
    assertion, and no directory or file has been made or changed. (What
    of the lines of the header has reached the output by then is not
    stated: the state differs from the initial one in its output only.) *)
Theorem process_buf_truncated_payload buf count fs r :
  decode buf = Some r →
  Z.of_nat sizeof_fwpart ≤ count →
  count < total_length r < 2 ^ 64 →
  ∃ out, process_buf buf count fs = Abort assert_payload (set_stdout out fs).
Proof.
  intros Hd Hc Ht. rewrite process_buf_eq, Hd.
  destruct (Z.of_nat sizeof_fwpart <=? count) eqn:H1;
    [|apply Z.leb_gt in H1; lia].
  cbv zeta. pose proof (decode_size_range _ _ Hd) as [H0 _].
  unfold to_size_t. rewrite Z.mod_small by (unfold total_length in *; lia).
  destruct (total_length r <=? count) eqn:H2; [apply Z.leb_le in H2; lia|].
  by eexists.
Qed.

Lemma process_buf_truncated_payload_witness :
  ∃ out, process_buf (take 258 ex_prog) 258 ex_fs =
         Abort assert_payload (set_stdout out ex_fs).
Proof.
  apply (process_buf_truncated_payload (take 258 ex_prog) 258 ex_fs ex_prog_pt).
  - vm_compute. reflexivity.
  - vm_compute. discriminate.
  - split; vm_compute; reflexivity.
Defined.

Lemma process_buf_Done_stdout buf count fs n fs' :
  process_buf buf count fs = Done n fs' →
  ∃ r, decode buf = Some r ∧ fs_stdout fs' = fs_stdout fs ++ record_log r.
Proof.
  intros Hb. apply process_buf_Done in Hb as (r & Hd & _ & _ & _ & Hs).
  apply save_buf_Done in Hs as (k & _ & _ & _ & _ & _ & _ & _ & _ & _ & Ho & _).
  exists r. by split.
Qed.

Lemma process_mem_loop_Done_framing fuel : ∀ mem fs fs',
  Z.of_nat (length mem) < 2 ^ 64 →
  process_mem_loop fuel mem (Z.of_nat (length mem)) fs = Done tt fs' →
  ∃ rs, framing mem rs ∧
        fs_stdout fs' = fs_stdout fs ++ concat (map record_log rs).
Proof.
  induction fuel as [|fuel IH]; intros mem fs fs' Hmax; [done|].
  cbn [process_mem_loop].
  destruct (0 <? Z.of_nat (length mem)) eqn:Hpos.
  - rewrite bind_eq.
    destruct (process_buf mem (Z.of_nat (length mem)) fs)
      as [n fs1|e fs1| |] eqn:Hb; try done.
    destruct (process_buf_Done_length _ _ _ _ Hb Hmax) as (r & Hd & -> & Hn).
    destruct (process_buf_Done_stdout _ _ _ _ _ Hb) as (r' & Hd' & Ho).
    rewrite Hd in Hd'. injection Hd' as <-.
    rewrite sizeof_fwpart_eq in Hn.
    assert (to_size_t (Z.of_nat (length mem) - total_length r) =
            Z.of_nat (length (drop (Z.to_nat (total_length r)) mem))) as ->.
    { rewrite length_drop. unfold to_size_t. rewrite Z.mod_small; lia. }
    intros Hrest. apply IH in Hrest as (rs & Hfr & Hout).
    + exists (r :: rs). split.
      * apply framing_cons; try done; [rewrite sizeof_fwpart_eq|]; lia.
      * rewrite Hout, Ho. simpl. by rewrite <- app_assoc.
    + rewrite length_drop. lia.
  - rewrite assert_eq. apply Z.ltb_ge in Hpos.
    destruct mem as [|c mem]; [|simpl in Hpos; lia].
    intros [= <-]. exists []. split; [constructor|]. simpl. by rewrite app_nil_r.
Qed.

(** X3. A run of [process_mem] that returns without a read outside the
    buffer: the buffer was a sequence of records packed back to back whose
    lengths 256 + size add up to its length, and the output is that of
    exactly these records, in order. (A size field that makes 256 + size
    wrap around has [fwrite] read outside the buffer; such a run is
    [Undefined] here, and nothing is said of it.) *)
Theorem process_mem_done_framing buf fs fs' :
  Z.of_nat (length buf) < 2 ^ 64 →
  process_mem buf (Z.of_nat (length buf)) fs = Done tt fs' →
  ∃ rs, framing buf rs ∧
        foldr (λ r s, total_length r + s) 0 rs = Z.of_nat (length buf) ∧
        fs_stdout fs' = fs_stdout fs ++ concat (map record_log rs).
Proof.
  intros Hmax Hrun. unfold process_mem in Hrun.
  apply process_mem_loop_Done_framing in Hrun as (rs & Hfr & Hout); [|done].
  exists rs. split; [done|]. split; [by apply framing_total|done].
Qed.

Lemma process_mem_done_framing_witness :
  ∃ rs, framing ex_archive rs ∧
        foldr (λ r s, total_length r + s) 0 rs = 517.
Proof.
  destruct (observe_done (process_mem ex_archive (Z.of_nat (length ex_archive)) ex_fs)
              (λ _ _, true)) as ([] & fs' & E & _); [vm_compute; reflexivity|].
  destruct (process_mem_done_framing ex_archive ex_fs fs'
              ltac:(vm_compute; reflexivity) E) as (rs & Hfr & Hsum & _).
  exists rs. split; [exact Hfr|]. exact Hsum.
Defined.

(** X4. A call of [process_buf] on a buffer that returns without a read
    outside the buffer: the value returned is 256 plus the decoded size,
    at least 256 and at most the length of the buffer. (With a size
    field that makes 256 + size wrap around, [fwrite] reads outside the
    buffer; such a call is [Undefined] here, and nothing is said of it.) *)
Theorem process_buf_advances buf fs n fs' :
  Z.of_nat (length buf) < 2 ^ 64 →
  process_buf buf (Z.of_nat (length buf)) fs = Done n fs' →
  ∃ r, decode buf = Some r ∧ n = Z.of_nat sizeof_fwpart + pt_size r ∧
       Z.of_nat sizeof_fwpart ≤ n ≤ Z.of_nat (length buf).
Proof.
  intros Hmax Hb.
  destruct (process_buf_Done_length _ _ _ _ Hb Hmax) as (r & Hd & -> & Hr).
  exists r. split; [exact Hd|]. split; [reflexivity|exact Hr].
Qed.

Lemma process_buf_advances_witness :
  ∃ r, decode ex_prog = Some r ∧ 259 = Z.of_nat sizeof_fwpart + pt_size r ∧
       Z.of_nat sizeof_fwpart ≤ 259 ≤ Z.of_nat (length ex_prog).
Proof.
  destruct (observe_done (process_buf ex_prog (Z.of_nat (length ex_prog)) ex_fs)
              (λ n _, bool_decide (n = 259))) as (n & fs' & Hrun & Hn);
    [vm_compute; reflexivity|].
  apply bool_decide_eq_true in Hn. subst n.
  exact (process_buf_advances ex_prog ex_fs 259 fs'
           ltac:(vm_compute; reflexivity) Hrun).
Defined.

Lemma process_buf_Abort buf count fs e fs' :
  process_buf buf count fs = Abort e fs' →
  e = assert_header ∨ e = assert_payload ∨ materialize_failure e = true.
Proof.
  rewrite process_buf_eq.
  destruct (_ <=? _); [|intros [= <- _]; by left].
  destruct (decode buf) as [r|]; [|done]. cbv zeta.
  destruct (_ <=? _); [|intros [= <- _]; right; by left].
  pose proof (save_buf_not_Done (pt_path r) (payload buf) (pt_size r)
                (pt_mode r) (pt_time r)
                (set_stdout (fs_stdout fs ++ record_log r) fs)) as Hs.
  destruct (save_buf _ _ _ _ _ _) as [[] fs1|e1 fs1| |]; try done.
  intros [= <- _]. right. right. by destruct Hs.
Qed.

Lemma process_buf_not_Diverge buf count fs : process_buf buf count fs ≠ Diverge.
Proof.
  rewrite process_buf_eq. destruct (_ <=? _); [|done].
  destruct (decode buf) as [r|]; [|done]. cbv zeta. destruct (_ <=? _); [|done].
  pose proof (save_buf_not_Done (pt_path r) (payload buf) (pt_size r)
                (pt_mode r) (pt_time r)
                (set_stdout (fs_stdout fs ++ record_log r) fs)) as Hs.
  by destruct (save_buf _ _ _ _ _ _).
Qed.

Lemma process_mem_loop_exit fuel : ∀ mem fs,
  (length mem < fuel)%nat → Z.of_nat (length mem) < 2 ^ 64 →
  match process_mem_loop fuel mem (Z.of_nat (length mem)) fs with
  | Abort e _ => e ≠ assert_exhausted
  | Diverge => False
  | Done _ _ | Undefined => True
  end.
Proof.
  induction fuel as [|fuel IH]; intros mem fs Hfuel Hmax; [lia|].
  cbn [process_mem_loop]. destruct (0 <? Z.of_nat (length mem)) eqn:Hpos.
  - rewrite bind_eq.
    destruct (process_buf mem (Z.of_nat (length mem)) fs)
      as [n fs1|e fs1| |] eqn:Hb; try done.
    + destruct (process_buf_Done_length _ _ _ _ Hb Hmax) as (r & _ & _ & Hn).
      rewrite sizeof_fwpart_eq in Hn.
      assert (to_size_t (Z.of_nat (length mem) - n) =
              Z.of_nat (length (drop (Z.to_nat n) mem))) as ->.
      { rewrite length_drop. unfold to_size_t. rewrite Z.mod_small; lia. }
      apply IH; rewrite length_drop; lia.
    + apply process_buf_Abort in Hb as [->|[->|Hm]]; [done|done|].
      by intros ->.
    + by apply process_buf_not_Diverge in Hb.
  - rewrite assert_eq. apply Z.ltb_ge in Hpos.
    destruct (Z.of_nat (length mem) =? 0) eqn:Hz; [done|].
    apply Z.eqb_neq in Hz. lia.
Qed.

(** X5. The assertion behind the loop of [process_mem] never fails: an
    abort comes from an assertion inside [process_buf]. And on a buffer
    that fits a [size_t] the loop stops, unless a read leaves the buffer:
    a run that is not [Undefined] returns or aborts, and the bound on the
    iterations is not reached. (A size field such as -256, for which
    256 + size wraps around to 0, has [fwrite] read outside the buffer:
    that run is [Undefined], and nothing is said of it.) *)
Theorem process_mem_loop_exits buf fs :
  Z.of_nat (length buf) < 2 ^ 64 →
  match process_mem buf (Z.of_nat (length buf)) fs with
  | Abort e _ => e ≠ assert_exhausted
  | Diverge => False
  | Done _ _ | Undefined => True
  end.
Proof.
  intros Hmax. unfold process_mem. rewrite Nat2Z.id.
  apply process_mem_loop_exit; [lia|done].
Qed.

Lemma process_mem_loop_exits_witness :
  match process_mem ex_bare (Z.of_nat (length ex_bare)) ex_fs with
  | Abort e _ => e ≠ assert_exhausted
  | Diverge => False
  | Done _ _ | Undefined => True
  end.
Proof.
  exact (process_mem_loop_exits ex_bare ex_fs ltac:(vm_compute; reflexivity)).
Defined.

(** X6. [save_buf] returns only for a path of at least two names, a
    directory and a file in it, none of them empty, [.] or [..]: nothing
    is ever extracted through a [..] component. *)
Theorem save_buf_rejects_dot_names path buf size mode time fs fs' :
  save_buf path buf size mode time fs = Done tt fs' →
  (2 ≤ length (components path))%nat ∧
  (str "." ∉ components path) ∧ (str ".." ∉ components path) ∧
  ([] ∉ components path).
Proof.
  intros Hs. apply save_buf_Done in Hs as (n & Hlen & Hp & _).
  split; [done|]. rewrite Forall_forall in Hp.
  split_and!; intros Hin; apply Hp in Hin as (?&?&?&?&?); done.
Qed.

Lemma save_buf_rejects_dot_names_witness :
  ∃ fs', save_buf (str "/etc/passwd") (str "root") 4 420 99 ex_fs = Done tt fs' ∧
         str ".." ∉ components (str "/etc/passwd").
Proof.
  destruct (observe_done (save_buf (str "/etc/passwd") (str "root") 4 420 99 ex_fs)
              (λ _ _, true)) as ([] & fs' & Hrun & _); [vm_compute; reflexivity|].
  exists fs'. split; [exact Hrun|].
  exact (proj1 (proj2 (proj2 (save_buf_rejects_dot_names _ _ _ _ _ _ _ Hrun)))).
Defined.

Lemma save_buf_Abort_nodes path buf size mode time fs e fs' :
  save_buf path buf size mode time fs = Abort e fs' →
  fs_nodes fs ⊆ fs_nodes fs'.
Proof.
  unfold save_buf, mkdir_p_fn, _mkdir_p. rewrite bind_eq.
  set (d := dirname (drop_slashes path)).
  pose proof (_mkdir_p_rec_spec (S (length d)) d ACCESSPERMS fs ltac:(lia)) as Hm.
  destruct (_mkdir_p_rec (S (length d)) d ACCESSPERMS fs) as [[] fs1|e1 fs1| |];
    [| |done|done].
  2:{ destruct Hm as (_ & _ & Hsub). by intros [= _ <-]. }
  destruct Hm as (_ & _ & _ & _ & _ & Hsub & _).
  rewrite bind_eq. unfold fopen_w.
  destruct (sys_fopen_w fs1 (drop_slashes path)) as [e1|[loc fs2]].
  { rewrite bind_eq, assert_eq. simpl. by intros [= _ <-]. }
  rewrite bind_eq, assert_eq. simpl. rewrite !bind_eq. unfold fwrite.
  destruct (size <=? Z.of_nat (length buf)); [|done].
  destruct (sys_fwrite fs2 buf size loc) as [r fs3].
  rewrite !bind_eq. simpl. rewrite bind_eq. unfold chmod. rewrite call_eq.
  destruct (sys_chmod fs3 _ _); simpl; rewrite bind_eq; unfold utime;
    rewrite call_eq; by destruct (sys_utime _ _ _ _).
Qed.

(** X7. What extraction leaves alone. When [save_buf] returns, every
    directory that existed is still a directory with the permission bits
    it had, every entry that is neither the working directory nor on the
    path of the record is unchanged, and so is the umask. When it aborts,
    every entry that existed is still there, with its type, its permission
    bits and its content. (Nothing is said of the time stamps of the
    directories in which an entry was made.) *)
Theorem save_buf_preserves path buf size mode time fs :
  match save_buf path buf size mode time fs with
  | Done _ fs' =>
      (∀ loc st, fs_nodes fs !! loc = Some st → S_ISDIR st = true →
                 ∃ st', fs_nodes fs' !! loc = Some st' ∧ S_ISDIR st' = true ∧
                        st_perm st' = st_perm st) ∧
      (∀ loc, (∀ k, (k ≤ length (components path))%nat →
                    loc ≠ fs_cwd fs ++ take k (components path)) →
              fs_nodes fs' !! loc = fs_nodes fs !! loc) ∧
      fs_umask fs' = fs_umask fs
  | Abort _ fs' =>
      ∀ loc st, fs_nodes fs !! loc = Some st →
                ∃ st', fs_nodes fs' !! loc = Some st' ∧ st_type st' = st_type st ∧
                       st_perm st' = st_perm st ∧ st_data st' = st_data st
  | Undefined | Diverge => True
  end.
Proof.
  destruct (save_buf path buf size mode time fs) as [[] fs'|e fs'| |] eqn:Hs;
    [| |done|done].
  - apply save_buf_Done in Hs
      as (n & _ & _ & _ & _ & _ & _ & Hfr & Hdirs & _ & _ & Hu & _).
    split_and!; [|intros loc Hloc; apply Hfr; intros k Hk; apply Hloc; lia|done].
    intros loc st Hl Hd. exists st. by rewrite (Hdirs _ _ Hl Hd).
  - apply save_buf_Abort_nodes in Hs. intros loc st Hl. exists st.
    split; [|done]. by eapply lookup_weaken.
Qed.

Lemma save_buf_preserves_witness :
  ∃ fs' st', save_buf (str "/home/bin/prog") (str "abc") 3 493 1234 ex_fs = Done tt fs' ∧
             fs_nodes fs' !! [str "root"] = Some st' ∧ S_ISDIR st' = true ∧
             st_perm st' = 493.
Proof.
  destruct (observe_done (save_buf (str "/home/bin/prog") (str "abc") 3 493 1234 ex_fs)
              (λ _ _, true)) as ([] & fs' & Hrun & _); [vm_compute; reflexivity|].
  pose proof (save_buf_preserves (str "/home/bin/prog") (str "abc") 3 493 1234 ex_fs)
    as H.
  rewrite Hrun in H. destruct H as (Hdirs & _).
  destruct (Hdirs [str "root"] ex_dir eq_refl eq_refl) as (st' & Hl & Hd & Hp).
  exists fs', st'. split; [exact Hrun|]. split; [exact Hl|]. split; [exact Hd|exact Hp].
Defined.



(** ** [_mkdir_p] as a walk over the names of its path *)

Lemma components_head_not_slash p c cs :
  components p = c :: cs → c ≠ [] ∧ (slash ∉ c).
Proof.
  revert c cs. induction p as [|a p IH]; intros c cs; [done|]. simpl.
  destruct (is_slash a) eqn:Ha; [apply IH|].
  apply is_slash_false in Ha.
  destruct (components p) as [|x xs] eqn:Hp.
  - intros [= <- <-]. split; [done|]. apply not_elem_of_cons. split; [congruence|].
    apply not_elem_of_nil.
  - destruct (is_slash (str_head p)).
    + intros [= <- <-]. split; [done|]. apply not_elem_of_cons.
      split; [congruence|]. apply not_elem_of_nil.
    + intros [= <- <-]. split; [done|]. apply not_elem_of_cons.
      split; [congruence|]. by destruct (IH x xs eq_refl).
Qed.

Lemma components_tail p c cs :
  components p = c :: cs → ∃ q, components q = cs.
Proof.
  revert c cs. induction p as [|a p IH]; intros c cs; [done|]. simpl.
  destruct (is_slash a); [apply IH|].
  destruct (components p) as [|x xs] eqn:Hp.
  - intros [= <- <-]. by exists [].
  - destruct (is_slash (str_head p)).
    + intros [= <- <-]. by exists p.
    + intros [= <- <-]. by eapply IH.
Qed.

Lemma components_no_slash p : Forall (λ c, c ≠ [] ∧ (slash ∉ c)) (components p).
Proof.
  remember (components p) as cs eqn:Hcs. symmetry in Hcs.
  revert p Hcs. induction cs as [|c cs IH]; intros p Hcs; [constructor|].
  constructor; [by eapply components_head_not_slash|].
  destruct (components_tail _ _ _ Hcs) as [q Hq]. by eapply IH.
Qed.

(** A call of [_mkdir] that returns. *)
Lemma _mkdir_Done c mode fs fs' :
  slash ∉ c → _mkdir c mode fs = Done tt fs' →
  dir_name c ∧ is_dir (fs_nodes fs) (fs_cwd fs) = true ∧
  fs' = make_dir_at (fs_cwd fs ++ [c]) mode fs.
Proof.
  intros Hn Hrun. pose proof (_mkdir_spec c mode fs Hn) as Hs.
  rewrite Hrun in Hs. destruct Hs as (Hp & Hcd & _).
  assert (str_head c ≠ NUL) as Hh.
  { intros Hh. unfold _mkdir in Hrun. rewrite bind_eq, assert_eq in Hrun.
    by rewrite bool_decide_eq_true_2 in Hrun. }
  assert (dir_name c) as Hd by done.
  split; [done|]. split; [done|].
  rewrite _mkdir_proper in Hrun by done. unfold make_dir_at.
  destruct (fs_nodes fs !! (fs_cwd fs ++ [c])) as [st|].
  - destruct (S_ISDIR st); [|done]. by injection Hrun.
  - destruct (fs_free_inodes fs <=? 0); [done|]. by injection Hrun.
Qed.

Lemma bind_ext {A B} (m : M A) (f g : A → M B) fs :
  (∀ a fs', f a fs' = g a fs') → (m ≫= f) fs = (m ≫= g) fs.
Proof. intros H. rewrite !bind_eq. by destruct (m fs). Qed.

Lemma trailing_slash_app p q : q ≠ [] → trailing_slash (p ++ q) = trailing_slash q.
Proof.
  intros Hq. unfold trailing_slash.
  destruct (exists_last Hq) as (q' & c & ->). by rewrite app_assoc, !last_snoc.
Qed.

Lemma _mkdir_p_rec_components fuel : ∀ path mode fs,
  (length path < fuel)%nat → path ≠ [] →
  is_slash (str_head path) = false → trailing_slash path = false →
  _mkdir_p_rec fuel path mode fs = mkdir_components (components path) mode fs.
Proof.
  induction fuel as [|fuel IH]; intros path mode fs Hlen Hne Hh Ht; [lia|].
  simpl. destruct (cut_slash path) as [h s] eqn:Hcut.
  pose proof (cut_slash_nonempty _ _ _ Hcut Hne Hh) as Hhne.
  destruct s as [s|].
  - rewrite (components_cut_Some _ _ _ Hcut Hhne).
    pose proof (cut_slash_shorter _ _ _ Hcut) as Hshort.
    apply cut_slash_Some in Hcut as (k & Hpath & Hn & Hhs).
    assert (s ≠ []) as Hsne.
    { intros ->. rewrite Hpath in Ht.
      rewrite app_nil_r in Ht.
      change (slash :: replicate k slash) with (replicate (S k) slash) in Ht.
      by rewrite trailing_slash_replicate in Ht. }
    assert (trailing_slash s = false) as Hts.
    { rewrite Hpath in Ht.
      change (slash :: replicate k slash ++ s)
        with (replicate (S k) slash ++ s) in Ht.
      rewrite app_assoc in Ht. by rewrite trailing_slash_app in Ht. }
    pose proof (components_nonempty s Hsne Hhs) as Hcs.
    cbn [mkdir_components]. destruct (components s) as [|c cs] eqn:Hcomp; [done|].
    apply bind_ext; intros [] fs1. apply bind_ext; intros fd fs2.
    apply bind_ext; intros [] fs3. apply bind_ext; intros [] fs4.
    rewrite !bind_eq. rewrite IH; [|lia|done|done|done]. by rewrite Hcomp.
  - by rewrite (components_cut_None _ _ Hcut Hhne).
Qed.

(** [_mkdir_p] makes the names of its path one inside the other. *)
Lemma _mkdir_p_components path mode fs :
  path ≠ [] → is_slash (str_head path) = false → trailing_slash path = false →
  _mkdir_p path mode fs = mkdir_components (components path) mode fs.
Proof. intros. apply _mkdir_p_rec_components; [lia|done..]. Qed.

(** ** The states that directory creation leaves *)

Lemma make_dir_at_cwd loc mode fs : fs_cwd (make_dir_at loc mode fs) = fs_cwd fs.
Proof. unfold make_dir_at. by destruct (fs_nodes fs !! loc). Qed.

Lemma make_dir_at_subseteq loc mode fs :
  fs_nodes fs ⊆ fs_nodes (make_dir_at loc mode fs).
Proof.
  unfold make_dir_at. destruct (fs_nodes fs !! loc) eqn:Hl; [done|].
  simpl. by apply insert_subseteq.
Qed.

Lemma make_dir_at_set_cwd loc mode d fs :
  make_dir_at loc mode (set_cwd d fs) = set_cwd d (make_dir_at loc mode fs).
Proof. unfold make_dir_at. simpl. by destruct (fs_nodes fs !! loc). Qed.

Lemma make_dirs_cwd cs : ∀ dir mode fs,
  fs_cwd (make_dirs dir cs mode fs) = fs_cwd fs.
Proof.
  induction cs as [|c cs IH]; intros dir mode fs; [done|]. simpl.
  by rewrite IH, make_dir_at_cwd.
Qed.

Lemma make_dirs_subseteq cs : ∀ dir mode fs,
  fs_nodes fs ⊆ fs_nodes (make_dirs dir cs mode fs).
Proof.
  induction cs as [|c cs IH]; intros dir mode fs; [done|]. simpl.
  etrans; [apply (make_dir_at_subseteq (dir ++ [c]) mode)|apply IH].
Qed.

Lemma make_dirs_set_cwd cs : ∀ dir mode d fs,
  make_dirs dir cs mode (set_cwd d fs) = set_cwd d (make_dirs dir cs mode fs).
Proof.
  induction cs as [|c cs IH]; intros dir mode d fs; [done|]. simpl.
  by rewrite make_dir_at_set_cwd, IH.
Qed.

Lemma fs_nodes_set_cwd d fs : fs_nodes (set_cwd d fs) = fs_nodes fs.
Proof. reflexivity. Qed.

Lemma set_cwd_set_cwd d d' fs : set_cwd d (set_cwd d' fs) = set_cwd d fs.
Proof. reflexivity. Qed.

Lemma _mkdir_Done_dir c mode fs fs' :
  slash ∉ c → _mkdir c mode fs = Done tt fs' →
  is_dir (fs_nodes fs') (fs_cwd fs ++ [c]) = true.
Proof.
  intros Hn Hrun. pose proof (_mkdir_spec c mode fs Hn) as Hs.
  rewrite Hrun in Hs. by destruct Hs as (_ & _ & Hd & _).
Qed.

(** The tail of the walk of [mkdir_components] below an existing
    directory [c]. *)
Lemma mkdir_components_step c c2 cs mode fs :
  dir_name c → is_dir (fs_nodes fs) (fs_cwd fs) = true →
  is_dir (fs_nodes fs) (fs_cwd fs ++ [c]) = true →
  (fd ← open_rdonly (str ".");
   assert (succeeded fd) assert_open;;
   _chdir c;;
   mkdir_components (c2 :: cs) mode;;
   match fd with
   | inr fd => fchdir fd;; close fd;; mret tt
   | inl _ => mret tt
   end) fs =
  match mkdir_components (c2 :: cs) mode (set_cwd (fs_cwd fs ++ [c]) fs) with
  | Done _ fs' =>
      match sys_fchdir fs' (fs_cwd fs) with
      | inr fs'' => Done tt fs''
      | inl _ => Done tt fs'
      end
  | Abort e fs' => Abort e fs'
  | Undefined => Undefined
  | Diverge => Diverge
  end.
Proof.
  intros [Hp _] Hcd Hd. rewrite bind_eq. unfold open_rdonly.
  rewrite open_dot by done. rewrite bind_eq, assert_eq. cbn [succeeded].
  rewrite bind_eq. unfold _chdir. rewrite bind_eq. unfold chdir. rewrite call_eq.
  rewrite chdir_name by done. rewrite assert_eq. cbn [succeeded]. rewrite bind_eq.
  destruct (mkdir_components (c2 :: cs) mode (set_cwd (fs_cwd fs ++ [c]) fs))
    as [[] fs'|e fs'| |]; try done.
  rewrite bind_eq. unfold fchdir. rewrite call_eq.
  by destruct (sys_fchdir fs' (fs_cwd fs)).
Qed.

Lemma mkdir_components_Done cs : ∀ mode fs fs',
  Forall (λ c, slash ∉ c) cs →
  mkdir_components cs mode fs = Done tt fs' →
  Forall dir_name cs ∧ fs' = make_dirs (fs_cwd fs) cs mode fs.
Proof.
  induction cs as [|c cs IH]; intros mode fs fs' Hns.
  { intros [= <-]. by split. }
  apply Forall_cons in Hns as [Hn Hns]. cbn [mkdir_components].
  rewrite bind_eq. destruct (_mkdir c mode fs) as [[] fs1|e fs1| |] eqn:Hm; try done.
  pose proof (_mkdir_Done_dir _ _ _ _ Hn Hm) as Hdir.
  apply _mkdir_Done in Hm as (Hdn & Hcd & Hfs1); [|done].
  destruct cs as [|c2 cs].
  { intros [= <-]. split; [by constructor|]. done. }
  assert (fs_cwd fs1 = fs_cwd fs) as Hcwd1 by (by rewrite Hfs1, make_dir_at_cwd).
  assert (fs_nodes fs ⊆ fs_nodes fs1) as Hsub1
    by (rewrite Hfs1; apply make_dir_at_subseteq).
  assert (is_dir (fs_nodes fs1) (fs_cwd fs) = true) as Hcd1
    by (eapply is_dir_mono; [exact Hsub1|exact Hcd]).
  rewrite mkdir_components_step; [|done|by rewrite Hcwd1|by rewrite Hcwd1].
  rewrite Hcwd1.
  destruct (mkdir_components (c2 :: cs) mode (set_cwd (fs_cwd fs ++ [c]) fs1))
    as [[] fs3|e fs3| |] eqn:Hrec; try done.
  apply IH in Hrec as [Hdns Hfs3]; [|done]. simpl fs_cwd in Hfs3.
  rewrite make_dirs_set_cwd in Hfs3.
  rewrite fchdir_dir.
  2:{ rewrite Hfs3, fs_nodes_set_cwd.
      eapply is_dir_mono; [apply make_dirs_subseteq|exact Hcd1]. }
  intros [= <-]. split; [by constructor|].
  rewrite Hfs3, set_cwd_set_cwd.
  change (make_dirs (fs_cwd fs) (c :: c2 :: cs) mode fs)
    with (make_dirs (fs_cwd fs ++ [c]) (c2 :: cs) mode
            (make_dir_at (fs_cwd fs ++ [c]) mode fs)).
  rewrite <- Hfs1.
  rewrite <- (set_cwd_id (make_dirs (fs_cwd fs ++ [c]) (c2 :: cs) mode fs1)) at 2.
  by rewrite make_dirs_cwd, Hcwd1.
Qed.

Lemma make_dir_at_lookup_ne loc mode fs l :
  l ≠ loc → fs_nodes (make_dir_at loc mode fs) !! l = fs_nodes fs !! l.
Proof.
  intros Hl. unfold make_dir_at. destruct (fs_nodes fs !! loc); [done|].
  simpl. by rewrite lookup_insert_ne.
Qed.

Lemma make_dir_at_is_dir loc mode fs :
  (∀ st, fs_nodes fs !! loc = Some st → S_ISDIR st = true) →
  is_dir (fs_nodes (make_dir_at loc mode fs)) loc = true.
Proof.
  intros H. unfold make_dir_at, is_dir.
  destruct (fs_nodes fs !! loc) as [st|] eqn:Hl.
  - rewrite Hl. by apply H.
  - simpl. by rewrite lookup_insert_eq.
Qed.

Lemma missing_ext (n1 n2 : gmap (list (list ascii)) inode) cs : ∀ dir,
  (∀ l, (length dir < length l)%nat → n1 !! l = n2 !! l) →
  missing n1 dir cs = missing n2 dir cs.
Proof.
  induction cs as [|c cs IH]; intros dir H; [done|]. simpl.
  rewrite H by (rewrite length_app; simpl; lia). f_equal.
  apply IH. intros l Hl. apply H. rewrite length_app in Hl. lia.
Qed.

Lemma mkdir_components_succeeds cs : ∀ mode fs,
  Forall dir_name cs →
  is_dir (fs_nodes fs) (fs_cwd fs) = true →
  (∀ k st, (0 < k ≤ length cs)%nat →
           fs_nodes fs !! (fs_cwd fs ++ take k cs) = Some st → S_ISDIR st = true) →
  Z.of_nat (missing (fs_nodes fs) (fs_cwd fs) cs) ≤ fs_free_inodes fs →
  mkdir_components cs mode fs = Done tt (make_dirs (fs_cwd fs) cs mode fs).
Proof.
  induction cs as [|c cs IH]; intros mode fs Hdn Hcd Hprefix Hino; [done|].
  apply Forall_cons in Hdn as [Hc Hdn]. cbn [mkdir_components make_dirs].
  set (loc := fs_cwd fs ++ [c]).
  assert (∀ st, fs_nodes fs !! loc = Some st → S_ISDIR st = true) as Hloc.
  { intros st Hst. apply (Hprefix 1%nat); [simpl; lia|]. by rewrite firstn_cons, take_0. }
  assert (_mkdir c mode fs = Done tt (make_dir_at loc mode fs)) as Hm.
  { rewrite _mkdir_proper by done. fold loc. unfold make_dir_at.
    cbn [missing] in Hino. fold loc in Hino.
    destruct (fs_nodes fs !! loc) as [st|] eqn:Hst.
    - by rewrite (Hloc st).
    - destruct (fs_free_inodes fs <=? 0) eqn:Hz; [|done].
      apply Z.leb_le in Hz. lia. }
  rewrite bind_eq, Hm. destruct cs as [|c2 cs]; [done|].
  set (fs1 := make_dir_at loc mode fs) in *.
  assert (fs_cwd fs1 = fs_cwd fs) as Hcwd1 by apply make_dir_at_cwd.
  assert (fs_nodes fs ⊆ fs_nodes fs1) as Hsub1 by apply make_dir_at_subseteq.
  assert (is_dir (fs_nodes fs1) (fs_cwd fs) = true) as Hcd1
    by (eapply is_dir_mono; [exact Hsub1|exact Hcd]).
  assert (is_dir (fs_nodes fs1) loc = true) as Hd1 by (by apply make_dir_at_is_dir).
  rewrite mkdir_components_step; [|done|by rewrite Hcwd1|by rewrite Hcwd1].
  rewrite Hcwd1. fold loc.
  rewrite (IH mode (set_cwd loc fs1)); [|done|done| |].
  - simpl fs_cwd. rewrite make_dirs_set_cwd.
    rewrite fchdir_dir.
    2:{ rewrite fs_nodes_set_cwd.
        eapply is_dir_mono; [apply make_dirs_subseteq|exact Hcd1]. }
    rewrite set_cwd_set_cwd.
    rewrite <- (set_cwd_id (make_dirs loc (c2 :: cs) mode fs1)) at 2.
    by rewrite make_dirs_cwd, Hcwd1.
  - intros k st Hk. simpl fs_cwd. rewrite fs_nodes_set_cwd.
    unfold fs1. rewrite make_dir_at_lookup_ne.
    + unfold loc. rewrite <- app_assoc. apply (Hprefix (S k)). simpl in *. lia.
    + intros H. apply (f_equal length) in H. unfold loc in H.
      rewrite !length_app, length_take in H. simpl in H. lia.
  - simpl fs_cwd. rewrite fs_nodes_set_cwd.
    rewrite (missing_ext (fs_nodes fs1) (fs_nodes fs)).
    2:{ intros l Hl. unfold fs1. apply make_dir_at_lookup_ne.
        intros ->. lia. }
    cbn [missing] in Hino. fold loc in Hino.
    change (fs_free_inodes (set_cwd loc fs1)) with (fs_free_inodes fs1).
    unfold fs1, make_dir_at. destruct (fs_nodes fs !! loc); simpl; lia.
Qed.

(** ** The directory part of a path *)

Lemma drop_name_app n r : slash ∉ n → drop_name (n ++ slash :: r) = slash :: r.
Proof.
  induction n as [|c n IH]; intros Hn; [done|].
  apply not_elem_of_cons in Hn as [Hc Hn]. simpl.
  assert (is_slash c = false) as -> by (apply is_slash_false; congruence). auto.
Qed.

Lemma reverse_head_last d :
  d ≠ [] → trailing_slash d = false → is_slash (str_head (reverse d)) = false.
Proof.
  intros Hne Ht. destruct (exists_last Hne) as (d' & c & ->).
  rewrite trailing_slash_snoc in Ht. by rewrite reverse_snoc.
Qed.

Lemma dirname_join d k name :
  d ≠ [] → trailing_slash d = false → name ≠ [] → slash ∉ name →
  dirname (d ++ slash :: replicate k slash ++ name) = d.
Proof.
  intros Hd Ht Hne Hn. unfold dirname.
  assert (reverse (d ++ slash :: replicate k slash ++ name) =
          reverse name ++ slash :: replicate k slash ++ reverse d) as ->.
  { rewrite reverse_app, reverse_cons, reverse_app, reverse_replicate.
    rewrite <- !app_assoc. f_equal. simpl. clear.
    induction k as [|k IH]; [done|]. simpl. by rewrite IH. }
  assert (reverse name ≠ []) as Hrn.
  { intros H. apply (f_equal reverse) in H. by rewrite reverse_involutive in H. }
  rewrite drop_slashes_id.
  2:{ rewrite str_head_app by done. apply str_head_not_slash.
      by apply not_elem_of_reverse. }
  destruct (reverse name ++ slash :: replicate k slash ++ reverse d) eqn:E.
  { by destruct (reverse name). }
  rewrite <- E. rewrite drop_name_app by (by apply not_elem_of_reverse).
  change (slash :: replicate k slash ++ reverse d)
    with (replicate (S k) slash ++ reverse d).
  rewrite drop_slashes_replicate, drop_slashes_id by (by apply reverse_head_last).
  destruct (reverse d) eqn:Er.
  { apply (f_equal reverse) in Er. rewrite reverse_involutive in Er. by subst d. }
  by rewrite <- Er, reverse_involutive.
Qed.

Lemma trailing_slash_name p name :
  name ≠ [] → slash ∉ name → trailing_slash (p ++ name) = false.
Proof.
  intros Hne Hn. rewrite trailing_slash_app by done.
  by apply trailing_slash_not_slash.
Qed.

Lemma make_dirs_free_inodes cs : ∀ dir mode fs,
  fs_free_inodes (make_dirs dir cs mode fs) =
  fs_free_inodes fs - Z.of_nat (missing (fs_nodes fs) dir cs).
Proof.
  induction cs as [|c cs IH]; intros dir mode fs; simpl; [lia|].
  rewrite IH.
  rewrite (missing_ext (fs_nodes (make_dir_at (dir ++ [c]) mode fs)) (fs_nodes fs)).
  2:{ intros l Hl. apply make_dir_at_lookup_ne. intros ->. lia. }
  unfold make_dir_at. destruct (fs_nodes fs !! (dir ++ [c])); simpl; lia.
Qed.

Lemma mkdir_components_existing cs : ∀ mode fs,
  Forall dir_name cs →
  (∀ k, (k ≤ length cs)%nat →
        is_dir (fs_nodes fs) (fs_cwd fs ++ take k cs) = true) →
  mkdir_components cs mode fs = Done tt fs.
Proof.
  induction cs as [|c cs IH]; intros mode fs Hdn Hdirs; [done|].
  apply Forall_cons in Hdn as [Hc Hdn]. cbn [mkdir_components].
  pose proof (Hdirs 0%nat ltac:(lia)) as Hcd. rewrite take_0, app_nil_r in Hcd.
  pose proof (Hdirs 1%nat ltac:(simpl; lia)) as Hd1.
  rewrite firstn_cons, take_0 in Hd1.
  rewrite bind_eq, _mkdir_proper by done.
  unfold is_dir in Hd1.
  destruct (fs_nodes fs !! (fs_cwd fs ++ [c])) as [st|] eqn:Hst; [|done].
  rewrite Hd1. destruct cs as [|c2 cs]; [done|].
  rewrite mkdir_components_step; [|done|done|by unfold is_dir; rewrite Hst].
  rewrite (IH mode (set_cwd (fs_cwd fs ++ [c]) fs)); [|done|].
  - rewrite fchdir_dir by done. by rewrite set_cwd_set_cwd, set_cwd_id.
  - intros k Hk. simpl fs_cwd. rewrite fs_nodes_set_cwd, <- app_assoc.
    apply (Hdirs (S k)). simpl in *. lia.
Qed.

(** ** [_mkdir_p] on paths *)

Lemma _mkdir_not_empty mode fs : _mkdir [] mode fs = Abort assert_path_nonempty fs.
Proof. reflexivity. Qed.

Lemma _mkdir_p_rec_Done_path fuel : ∀ path mode fs fs',
  _mkdir_p_rec fuel path mode fs = Done tt fs' →
  path ≠ [] ∧ is_slash (str_head path) = false ∧ trailing_slash path = false.
Proof.
  induction fuel as [|fuel IH]; intros path mode fs fs'; [done|].
  simpl. destruct (cut_slash path) as [h s] eqn:Hcut.
  rewrite bind_eq.
  destruct h as [|a h]; [by rewrite _mkdir_not_empty|].
  destruct (_mkdir (a :: h) mode fs) as [[] fs1|e fs1| |] eqn:Hm; try done.
  assert (path ≠ []) as Hne by (intros ->; simpl in Hcut; discriminate Hcut).
  assert (is_slash (str_head path) = false) as Hh.
  { destruct path as [|c p]; [done|]. simpl in *.
    destruct (is_slash c); [discriminate Hcut|reflexivity]. }
  destruct s as [s|].
  - apply cut_slash_Some in Hcut as (k & Hpath & Hn & Hhs).
    rewrite bind_eq. unfold open_rdonly at 1.
    rewrite bind_eq, assert_eq.
    destruct (sys_open_rdonly fs1 _) as [e|fd]; cbn [succeeded];
      cbv iota; [done|].
    rewrite bind_eq.
    destruct (_chdir (a :: h) fs1) as [[] fs2|e fs2| |]; try done.
    rewrite bind_eq.
    destruct (_mkdir_p_rec fuel s mode fs2) as [[] fs3|e fs3| |] eqn:Hrec; try done.
    intros _. apply IH in Hrec as (Hsne & _ & Hts).
    split; [done|]. split; [done|]. rewrite Hpath.
    change (slash :: replicate k slash ++ s) with (replicate (S k) slash ++ s).
    by rewrite !app_assoc, trailing_slash_app.
  - intros _. apply cut_slash_None in Hcut as [-> Hn].
    split; [done|]. split; [done|]. by apply trailing_slash_not_slash.
Qed.

Lemma make_dir_at_env loc mode fs :
  fs_umask (make_dir_at loc mode fs) = fs_umask fs ∧
  fs_clock (make_dir_at loc mode fs) = fs_clock fs.
Proof. unfold make_dir_at. by destruct (fs_nodes fs !! loc). Qed.

(** What [make_dirs] leaves at the entries it passes. *)
Lemma make_dirs_lookup_path cs : ∀ dir mode fs k,
  (0 < k ≤ length cs)%nat →
  fs_nodes (make_dirs dir cs mode fs) !! (dir ++ take k cs) =
  Some (match fs_nodes fs !! (dir ++ take k cs) with
        | Some st => st
        | None => Inode S_IFDIR [] (Z.ldiff (Z.land mode ACCESSPERMS) (fs_umask fs))
                    (fs_clock fs) (fs_clock fs)
        end).
Proof.
  induction cs as [|c cs IH]; intros dir mode fs k Hk; [simpl in Hk; lia|].
  cbn [make_dirs]. destruct k as [|k]; [lia|]. rewrite firstn_cons.
  destruct k as [|k].
  - rewrite take_0.
    eapply lookup_weaken; [|apply make_dirs_subseteq].
    unfold make_dir_at. destruct (fs_nodes fs !! (dir ++ [c])) as [st|] eqn:Hst.
    + exact Hst.
    + cbn [fs_nodes set_free_inodes set_nodes]. apply lookup_insert_eq.
  - replace (dir ++ c :: take (S k) cs) with ((dir ++ [c]) ++ take (S k) cs)
      by (by rewrite <- app_assoc).
    rewrite IH by (simpl in Hk; lia).
    destruct (make_dir_at_env (dir ++ [c]) mode fs) as [-> ->].
    rewrite make_dir_at_lookup_ne; [done|].
    intros H. apply (f_equal length) in H.
    rewrite !length_app, length_take in H. cbn [length] in H, Hk. lia.
Qed.

(** X11. [_mkdir_p] returns only for a path that is not empty, does not
    begin and does not end with a slash and whose names [_mkdir] accepts.
    When it has returned, every name on the way is a directory: one that
    existed has the permission bits it had, one that was missing has the
    bits [mode & 0777 & ~umask] and has taken one inode; the entries that
    are neither the working directory nor on the way are unchanged, and
    the working directory is the one before. (Nothing is said of the time
    stamps of the directories in which one was made.) *)
Theorem _mkdir_p_result path mode fs fs' :
  _mkdir_p path mode fs = Done tt fs' →
  let cs := components path in
  (path ≠ [] ∧ is_slash (str_head path) = false ∧ trailing_slash path = false) ∧
  Forall dir_name cs ∧
  (∀ k, (0 < k ≤ length cs)%nat →
        ∃ st', fs_nodes fs' !! (fs_cwd fs ++ take k cs) = Some st' ∧
               S_ISDIR st' = true ∧
               st_perm st' =
               match fs_nodes fs !! (fs_cwd fs ++ take k cs) with
               | Some st => st_perm st
               | None => Z.ldiff (Z.land mode ACCESSPERMS) (fs_umask fs)
               end) ∧
  (∀ loc, (∀ k, (k ≤ length cs)%nat → loc ≠ fs_cwd fs ++ take k cs) →
          fs_nodes fs' !! loc = fs_nodes fs !! loc) ∧
  fs_cwd fs' = fs_cwd fs ∧
  fs_free_inodes fs' =
  fs_free_inodes fs - Z.of_nat (missing (fs_nodes fs) (fs_cwd fs) cs).
Proof.
  intros Hrun. cbv zeta. pose proof Hrun as Hshape.
  apply _mkdir_p_rec_Done_path in Hshape as (Hne & Hh & Ht).
  pose proof (_mkdir_p_rec_spec (S (length path)) path mode fs ltac:(lia)) as Hs.
  fold (_mkdir_p path mode) in Hs. rewrite Hrun in Hs.
  destruct Hs as (_ & _ & _ & Hcwd & _ & _ & Hdirs & Hfr).
  rewrite _mkdir_p_components in Hrun by done.
  apply mkdir_components_Done in Hrun as [Hdn Hfs'].
  2:{ eapply Forall_impl; [apply components_no_slash|]. by intros c [_ ?]. }
  remember (components path) as cs eqn:Hcs.
  split; [done|]. split; [done|]. split_and!.
  - intros k Hk. specialize (Hdirs k ltac:(lia)).
    unfold is_dir in Hdirs.
    pose proof (make_dirs_lookup_path cs (fs_cwd fs) mode fs k Hk) as Hl.
    rewrite <- Hfs' in Hl. rewrite Hl in Hdirs.
    eexists. split; [exact Hl|]. split; [exact Hdirs|].
    by destruct (fs_nodes fs !! (fs_cwd fs ++ take k cs)).
  - intros loc Hloc. apply Hfr. intros k Hk. apply Hloc. lia.
  - done.
  - rewrite Hfs'. apply make_dirs_free_inodes.
Qed.

Lemma _mkdir_p_result_witness :
  ∃ fs' st', _mkdir_p (str "home/bin") ACCESSPERMS ex_fs = Done tt fs' ∧
             fs_nodes fs' !! [str "root"; str "home"; str "bin"] = Some st' ∧
             S_ISDIR st' = true ∧ st_perm st' = 493 ∧
             fs_free_inodes fs' = 8.
Proof.
  destruct (observe_done (_mkdir_p (str "home/bin") ACCESSPERMS ex_fs) (λ _ _, true))
    as ([] & fs' & Hrun & _); [vm_compute; reflexivity|].
  destruct (_mkdir_p_result _ _ _ _ Hrun) as (_ & _ & Hdirs & _ & _ & Hino).
  destruct (Hdirs 2%nat ltac:(vm_compute; lia)) as (st' & Hl & Hd & Hp).
  exists fs', st'. split; [exact Hrun|]. split; [exact Hl|]. split; [exact Hd|].
  split; [exact Hp|exact Hino].
Defined.

(** X13. [_mkdir_p] a second time: if it returned, the same call in
    the state it left returns without changing anything. *)
Theorem _mkdir_p_idempotent path mode fs fs' :
  _mkdir_p path mode fs = Done tt fs' →
  _mkdir_p path mode fs' = Done tt fs'.
Proof.
  intros Hrun. pose proof Hrun as Hshape.
  apply _mkdir_p_rec_Done_path in Hshape as (Hne & Hh & Ht).
  pose proof (_mkdir_p_rec_spec (S (length path)) path mode fs ltac:(lia)) as Hs.
  fold (_mkdir_p path mode) in Hs. rewrite Hrun in Hs.
  destruct Hs as (_ & _ & _ & Hcwd & _ & _ & Hdirs & _).
  pose proof Hrun as Hc. rewrite _mkdir_p_components in Hc by done.
  apply mkdir_components_Done in Hc as [Hdn _].
  2:{ eapply Forall_impl; [apply components_no_slash|]. by intros c [_ ?]. }
  rewrite _mkdir_p_components by done.
  apply mkdir_components_existing; [done|]. by rewrite Hcwd.
Qed.

Lemma _mkdir_p_idempotent_witness :
  ∃ fs', _mkdir_p (str "home/bin") ACCESSPERMS ex_fs = Done tt fs' ∧
         _mkdir_p (str "home/bin") ACCESSPERMS fs' = Done tt fs'.
Proof.
  destruct (observe_done (_mkdir_p (str "home/bin") ACCESSPERMS ex_fs) (λ _ _, true))
    as ([] & fs' & Hrun & _); [vm_compute; reflexivity|].
  exists fs'. split; [exact Hrun|].
  exact (_mkdir_p_idempotent _ _ _ _ Hrun).
Defined.

(** X14. A name of more than [NAME_MAX] bytes: [stat] fails with
    [ENAMETOOLONG], so [_mkdir] takes its [else] branch and tests the
    [st_mode] of a [struct stat] that was never filled in. *)
Theorem _mkdir_name_too_long c mode fs :
  slash ∉ c → str_head c ≠ NUL → (NAME_MAX < length c)%nat →
  is_dir (fs_nodes fs) (fs_cwd fs) = true →
  _mkdir c mode fs = Undefined.
Proof.
  intros Hn Hnul Hlen Hcd. unfold _mkdir.
  assert (c ≠ []) as Hne by (intros ->; simpl in Hlen; lia).
  rewrite !bind_eq, !assert_eq.
  rewrite bool_decide_eq_false_2 by done. simpl.
  rewrite !bind_eq, !assert_eq.
  rewrite bool_decide_eq_false_2.
  2:{ intros Hs. apply Hn. destruct c as [|a c]; [done|]. simpl in Hs. subst a. left. }
  simpl. rewrite !bind_eq, !assert_eq.
  rewrite bool_decide_eq_false_2 by (intros ->; vm_compute in Hlen; lia). simpl.
  rewrite !bind_eq, !assert_eq.
  rewrite bool_decide_eq_false_2 by (intros ->; vm_compute in Hlen; lia). simpl.
  rewrite bind_eq. unfold stat, sys_stat.
  rewrite resolve_name by done. simpl. unfold is_dir in Hcd.
  destruct (fs_nodes fs !! fs_cwd fs) as [st|]; [|done]. rewrite Hcd. simpl.
  apply Nat.ltb_lt in Hlen. rewrite Hlen. reflexivity.
Qed.

Lemma _mkdir_name_too_long_witness :
  _mkdir (replicate 256 "a"%char) ACCESSPERMS ex_fs = Undefined.
Proof.
  apply (_mkdir_name_too_long (replicate 256 "a"%char) ACCESSPERMS ex_fs).
  - by_decide.
  - discriminate.
  - by_decide.
  - reflexivity.
Defined.

(** ** Bytes behind a record *)

Lemma strtoul_digits_app base m b : ∀ acc v,
  strtoul_digits base acc m = Some v → strtoul_digits base acc (m ++ b) = Some v.
Proof.
  induction m as [|c m IH]; intros acc v; [done|]. simpl.
  destruct (digit_val c) as [d|]; [|done]. destruct (d <? base); [apply IH|done].
Qed.

Lemma strtoul_base0_app m b v :
  strtoul_base0 m = Some v → strtoul_base0 (m ++ b) = Some v.
Proof.
  destruct m as [|a m]; [done|].
  destruct (decide (a = "0"%char)) as [->|Ha].
  - destruct m as [|c m]; [done|].
    change (strtoul_base0 ("0"%char :: c :: m))
      with (if decide (c = "x"%char ∨ c = "X"%char) then strtoul_digits 16 0 m
            else strtoul_digits 8 0 ("0"%char :: c :: m)).
    change (strtoul_base0 (("0"%char :: c :: m) ++ b))
      with (if decide (c = "x"%char ∨ c = "X"%char) then strtoul_digits 16 0 (m ++ b)
            else strtoul_digits 8 0 (("0"%char :: c :: m) ++ b)).
    destruct (decide _); apply strtoul_digits_app.
  - change ((a :: m) ++ b) with (a :: (m ++ b)).
    rewrite !strtoul_base0_decimal by done.
    apply (strtoul_digits_app 10 (a :: m) b).
Qed.

Lemma skip_space_app m b :
  skip_space m ≠ [] → skip_space (m ++ b) = skip_space m ++ b.
Proof.
  induction m as [|c m IH]; [done|]. simpl. destruct (isspace c); [apply IH|done].
Qed.

Lemma strtoul_app m b v : strtoul m = Some v → strtoul (m ++ b) = Some v.
Proof.
  unfold strtoul. destruct (skip_space m) as [|c m'] eqn:Hs; [done|].
  rewrite skip_space_app by (by rewrite Hs). rewrite Hs.
  cbn [app].
  destruct (decide (c = "-"%char)); [|destruct (decide (c = "+"%char))];
    cbv beta iota zeta.
  - destruct (strtoul_base0 m') as [w|] eqn:Hw; [|done].
    by rewrite (strtoul_base0_app _ _ _ Hw).
  - destruct (strtoul_base0 m') as [w|] eqn:Hw; [|done].
    by rewrite (strtoul_base0_app _ _ _ Hw).
  - destruct (strtoul_base0 (c :: m')) as [w|] eqn:Hw; [|done].
    pose proof (strtoul_base0_app (c :: m') b _ Hw) as Hw'. cbn [app] in Hw'.
    by rewrite Hw'.
Qed.

Lemma cstr_app_r m b v : cstr m = Some v → cstr (m ++ b) = Some v.
Proof.
  revert v. induction m as [|c m IH]; intros v; [done|]. simpl.
  destruct (decide (c = NUL)); [done|].
  destruct (cstr m) as [w|]; [|done]. by rewrite (IH w).
Qed.










(** ** Failing opens, trailing bytes and the hash field *)

(** X16. The file cannot be opened. When the directories of the path
    can be made but the path names an existing directory, or no inode is
    left for the file once the directories are made, [save_buf] aborts at
    its assertion on the stream; the directories it has made stay. *)
Theorem save_buf_fopen_fails i d k name buf size mode time fs :
  let path := replicate i slash ++ d ++ slash :: replicate k slash ++ name in
  let cs := components d ++ [name] in
  d ≠ [] → is_slash (str_head d) = false → trailing_slash d = false →
  Forall dir_name (components d) → proper_name name →
  is_dir (fs_nodes fs) (fs_cwd fs) = true →
  (∀ j st, (0 < j < length cs)%nat →
           fs_nodes fs !! (fs_cwd fs ++ take j cs) = Some st → S_ISDIR st = true) →
  Z.of_nat (missing (fs_nodes fs) (fs_cwd fs) (components d)) ≤ fs_free_inodes fs →
  match fs_nodes fs !! (fs_cwd fs ++ cs) with
  | Some st => S_ISDIR st = true
  | None => fs_free_inodes fs =
            Z.of_nat (missing (fs_nodes fs) (fs_cwd fs) (components d))
  end →
  save_buf path buf size mode time fs =
  Abort assert_fopen (make_dirs (fs_cwd fs) (components d) ACCESSPERMS fs).
Proof.
  intros path cs Hd Hh Ht Hdn Hpn Hcd Hprefix Hino Htarget.
  pose proof Hpn as (Hne & Hn & Hdot & Hdd & Hlen).
  assert (drop_slashes path = d ++ slash :: replicate k slash ++ name) as Hp.
  { unfold path. rewrite drop_slashes_replicate. apply drop_slashes_id.
    by rewrite str_head_app. }
  set (fs1 := make_dirs (fs_cwd fs) (components d) ACCESSPERMS fs).
  assert (_mkdir_p d ACCESSPERMS fs = Done tt fs1) as Hmk.
  { rewrite _mkdir_p_components by done.
    apply mkdir_components_succeeds; try done.
    intros j st Hj. specialize (Hprefix j st). unfold cs in Hprefix.
    rewrite take_app_le in Hprefix by lia. apply Hprefix.
    rewrite length_app. simpl. lia. }
  pose proof (_mkdir_p_rec_spec (S (length d)) d ACCESSPERMS fs ltac:(lia)) as Hm.
  fold (_mkdir_p d ACCESSPERMS) in Hm. rewrite Hmk in Hm. simpl in Hm.
  destruct Hm as (Hcsne & Hps & _ & Hcwd1 & _ & _ & Hdirs1 & Hfr1).
  assert (fs_nodes fs1 !! (fs_cwd fs ++ components d ++ [name]) =
          fs_nodes fs !! (fs_cwd fs ++ components d ++ [name])) as Hsame.
  { apply Hfr1. intros j Hj H. apply app_inv_head in H.
    apply (f_equal length) in H. rewrite length_app, length_take in H.
    simpl in H. lia. }
  assert (dirs_ready (fs_nodes fs1) (fs_cwd fs1) (components d)) as Hr
    by (split; [done|by rewrite Hcwd1]).
  unfold save_buf, mkdir_p_fn. rewrite Hp.
  rewrite dirname_join by done. rewrite bind_eq, Hmk.
  rewrite bind_eq. unfold fopen_w, sys_fopen_w.
  rewrite resolve_file by done.
  destruct (NAME_MAX <? length name)%nat eqn:E; [apply Nat.ltb_lt in E; lia|].
  rewrite step_proper by done.
  assert (trailing_slash (d ++ slash :: replicate k slash ++ name) = false) as ->.
  { assert (d ++ slash :: replicate k slash ++ name =
            (d ++ slash :: replicate k slash) ++ name) as ->
      by (by rewrite <- app_assoc).
    by apply trailing_slash_name. }
  rewrite Hcwd1, <- app_assoc, Hsame. fold cs.
  destruct (fs_nodes fs !! (fs_cwd fs ++ cs)) as [st|].
  { by rewrite Htarget. }
  assert (is_dir (fs_nodes fs1) (removelast (fs_cwd fs ++ cs)) = true) as ->.
  { unfold cs. rewrite !app_assoc, removelast_snoc.
    specialize (Hdirs1 (length (components d)) ltac:(lia)).
    by rewrite firstn_all in Hdirs1. }
  cbn [negb].
  assert (fs_free_inodes fs1 = 0) as ->
    by (unfold fs1; rewrite make_dirs_free_inodes; lia).
  reflexivity.
Qed.

Lemma save_buf_fopen_fails_witness :
  save_buf (str "/home/bin/prog") (str "abc") 3 493 1234 (set_free_inodes 2 ex_fs) =
  Abort assert_fopen
    (make_dirs [str "root"] [str "home"; str "bin"] ACCESSPERMS
       (set_free_inodes 2 ex_fs)).
Proof.
  apply (save_buf_fopen_fails 1 (str "home/bin") 0 (str "prog") (str "abc") 3 493 1234
           (set_free_inodes 2 ex_fs)).
  - discriminate.
  - reflexivity.
  - reflexivity.
  - change (components (str "home/bin")) with [str "home"; str "bin"].
    repeat constructor;
      apply dir_name_intro; try discriminate; try reflexivity; vm_compute; lia.
  - apply dir_name_intro; try discriminate; try reflexivity; vm_compute; lia.
  - reflexivity.
  - change (components (str "home/bin") ++ [str "prog"])
      with [str "home"; str "bin"; str "prog"].
    intros j st Hj. assert (j = 1 ∨ j = 2)%nat as [-> | ->] by (simpl in Hj; lia);
      vm_compute; discriminate.
  - vm_compute. discriminate.
  - vm_compute. reflexivity.
Defined.



Lemma member_after_hash f pre h post :
  length pre = offsetof f_hash → length h = width f_hash →
  (offsetof f_hash + width f_hash ≤ offsetof f)%nat →
  member f (pre ++ h ++ post) = drop (offsetof f - offsetof f_hash - width f_hash) post.
Proof.
  intros Hp Hh Hf. unfold member.
  rewrite drop_app_ge by lia. rewrite drop_app_ge by lia.
  f_equal. lia.
Qed.

Lemma decode_ignores_hash pre h h' post :
  length pre = offsetof f_hash →
  length h = width f_hash → length h' = width f_hash →
  is_Some (cstr pre) → is_Some (strtoul (drop (offsetof f_size) pre)) →
  decode (pre ++ h ++ post) = decode (pre ++ h' ++ post).
Proof.
  intros Hp Hh Hh' [name Hname] [size Hsize]. unfold decode.
  assert (∀ x, member f_size (pre ++ x) = drop (offsetof f_size) pre ++ x) as Hms.
  { intros x. unfold member. apply drop_app_le. rewrite Hp. vm_compute. lia. }
  rewrite !Hms, !(strtoul_app _ _ _ Hsize).
  assert (∀ x, member f_name (pre ++ x) = pre ++ x) as Hmn by done.
  rewrite !Hmn, !(cstr_app_r _ _ _ Hname).
  rewrite !(member_after_hash f_mode pre h), !(member_after_hash f_mode pre h'),
    !(member_after_hash f_time pre h), !(member_after_hash f_time pre h'),
    !(member_after_hash f_rsvd pre h), !(member_after_hash f_rsvd pre h'),
    !(member_after_hash f_path pre h), !(member_after_hash f_path pre h'),
    !(member_after_hash f_vers pre h), !(member_after_hash f_vers pre h')
    by (done || (vm_compute; lia)).
  reflexivity.
Qed.

(** X19. The hash field is never looked at: when the name and the
    size end inside their own fields, two records that differ only in the
    16 bytes of the hash are processed alike. *)
Theorem process_buf_ignores_hash pre h h' post count fs :
  length pre = offsetof f_hash →
  length h = width f_hash → length h' = width f_hash →
  is_Some (cstr pre) → is_Some (strtoul (drop (offsetof f_size) pre)) →
  process_buf (pre ++ h ++ post) count fs = process_buf (pre ++ h' ++ post) count fs.
Proof.
  intros Hp Hh Hh' Hname Hsize. rewrite !process_buf_eq.
  rewrite (decode_ignores_hash pre h h' post) by done.
  assert (payload (pre ++ h ++ post) = payload (pre ++ h' ++ post)) as ->; [|done].
  unfold payload. rewrite !drop_app_ge by (rewrite Hp; vm_compute; lia).
  rewrite !drop_app_ge; rewrite ?Hp, ?Hh, ?Hh'; [done|vm_compute; lia..].
Qed.

Lemma process_buf_ignores_hash_witness :
  process_buf ex_prog 259 ex_fs =
  process_buf (take 128 ex_prog ++ replicate 16 "f"%char ++ drop 144 ex_prog) 259 ex_fs.
Proof.
  etrans; [|apply (process_buf_ignores_hash (take 128 ex_prog)
                     (take 16 (drop 128 ex_prog)) (replicate 16 "f"%char)
                     (drop 144 ex_prog) 259 ex_fs)].
  - vm_compute. reflexivity.
  - vm_compute. reflexivity.
  - vm_compute. reflexivity.
  - vm_compute. reflexivity.
  - eexists; vm_compute; reflexivity.
  - eexists; vm_compute; reflexivity.
Defined.
